(** * Answer relevancy metric: a shallow embedding of
      [src/ragas/metrics/answer_relevance.py]

    The metric asks a generation model for candidate questions that the
    answer would answer, embeds the original question and the candidates,
    and scores each record with the largest cosine similarity.

    Layout of the development:
    - [Py]        exceptions and the state-and-exception monad in which the
                  methods of [AnswerRelevancy] run;
    - [Numpy]     binary64 arrays and the numpy operations the code calls;
    - [Exact]     the same cosine formula over the real numbers;
    - [Table]     the tabular dataset ([len], [select], [__getitem__],
                  [add_column]);
    - [Metric]    [get_batches], [calculate_similarity], [_score_batch] and
                  [score], over the two external services;
    - [Stub]      stand-in services and small tables on which the metric
                  is run;
    - lemmas on batches, binary64, the numpy pipeline, loops, tables and
      the methods, and then the claims C1 to C10 in order. *)

From Stdlib Require Import String Ascii Bool Arith ZArith Lia List.
From Stdlib Require Import Floats.
From Stdlib Require Import Reals Lra.
Import ListNotations.

Set Implicit Arguments.

(* ================================================================== *)
(** * Python control flow: exceptions over a threaded state *)

Module Py.

(** The exception classes that the modelled code can meet. *)
Inductive exn : Type :=
| KeyError          (* a column that the table does not have *)
| IndexError        (* a row index outside the table *)
| TypeError         (* a value of the wrong kind *)
| ValueError        (* numpy shape mismatch, empty reduction, table mismatch *)
| AxisError         (* numpy axis outside the array's dimensions *)
| ServiceError.     (* a failure raised by an external service *)

Inductive result (A : Type) : Type :=
| Ok (a : A)
| Raise (e : exn).
Arguments Ok {A} a.
Arguments Raise {A} e.

Definition is_ok {A} (r : result A) : bool :=
  match r with Ok _ => true | Raise _ => false end.

(** A computation reads and writes a state [S]; an exception leaves the
    state as it was when raised and skips the rest. *)
Definition M (S A : Type) : Type := S -> result A * S.

Definition ret {S A} (a : A) : M S A := fun s => (Ok a, s).

Definition bind {S A B} (m : M S A) (k : A -> M S B) : M S B :=
  fun s =>
    match m s with
    | (Ok a, s') => k a s'
    | (Raise e, s') => (Raise e, s')
    end.

Definition lift {S A} (r : result A) : M S A := fun s => (r, s).

(** [for x in xs: acc = body x acc] *)
Fixpoint for_in {S A B} (xs : list A) (body : A -> B -> M S B) (acc : B)
  : M S B :=
  match xs with
  | [] => ret acc
  | x :: xs' => bind (body x acc) (for_in xs' body)
  end.

(** [runs f xs ys s s']: calling [f] on the items of [xs] in turn, from
    state [s], raises nothing, returns [ys] item by item and ends in
    state [s']. *)
Inductive runs {S A B} (f : A -> M S B) : list A -> list B -> S -> S -> Prop :=
| runs_nil s : runs f [] [] s s
| runs_cons x xs y ys s s1 s2 :
    f x s = (Ok y, s1) -> runs f xs ys s1 s2 -> runs f (x :: xs) (y :: ys) s s2.

End Py.

Import Py.

Declare Scope py_scope.
Delimit Scope py_scope with py.
Notation "x <- m ;; k" := (bind m (fun x => k))
  (at level 61, m at next level, right associativity) : py_scope.
Open Scope py_scope.

(* ================================================================== *)
(** * Arithmetic shared by the executed formula and its exact reading *)

(** The operations that the similarity formula uses.  The program runs them
    on binary64 numbers; [Exact] reads the same formula over the reals. *)
Class Arith (T : Type) : Type := {
  a_zero : T;
  a_add  : T -> T -> T;
  a_mul  : T -> T -> T;
  a_div  : T -> T -> T;
  a_sqrt : T -> T
}.

Section Formula.
Context {T : Type} `{Arith T}.

(** Accumulation from the left, starting at zero.  numpy leaves the order
    of accumulation to its kernels, and the model fixes this one; over the
    reals the order does not matter, and the binary64 evaluations below
    are on rows whose partial sums are exact. *)
Definition sum (l : list T) : T := fold_left a_add l a_zero.

(** Inner product of two vectors of equal length. *)
Definition inner (u v : list T) : T :=
  sum (map (fun p => a_mul (fst p) (snd p)) (combine u v)).

(** [sqrt(add.reduce(x * x))], the 2-norm of one row. *)
Definition l2norm (v : list T) : T :=
  a_sqrt (sum (map (fun x => a_mul x x) v)).

(** The similarity of one candidate row [c] with the question row [q], as
    [calculate_similarity] computes it: [dot(c, q) / (norm c * norm q)]. *)
Definition cosine (q c : list T) : T :=
  a_div (inner c q) (a_mul (l2norm c) (l2norm q)).

Definition scale (k : T) (v : list T) : list T := map (a_mul k) v.
End Formula.

(* ================================================================== *)
(** * numpy on binary64 *)

Module Numpy.

#[export] Instance float_arith : Arith float := {|
  a_zero := 0%float;
  a_add  := PrimFloat.add;
  a_mul  := PrimFloat.mul;
  a_div  := PrimFloat.div;
  a_sqrt := PrimFloat.sqrt
|}.

(** An array of dimension one or two.  The rows of [Arr2] have one common
    length (the constructor [asarray2] checks it). *)
Inductive ndarray : Type :=
| Arr1 (v : list float)
| Arr2 (rows : list (list float)).

(** [np.asarray(rows)] of a list of lists of numbers: the empty list is
    the one-dimensional array of shape (0,); rows of unequal length make
    no rectangular array. *)
Definition asarray2 (rows : list (list float)) : result ndarray :=
  match rows with
  | [] => Ok (Arr1 [])
  | r :: rs =>
      if forallb (fun r' => length r' =? length r) rs
      then Ok (Arr2 rows) else Raise ValueError
  end.

(** [np.linalg.norm(a, axis=1)]: the 2-norm of every row; a
    one-dimensional array has no axis 1. *)
Definition linalg_norm_axis1 (a : ndarray) : result (list float) :=
  match a with
  | Arr1 _ => Raise AxisError
  | Arr2 rows => Ok (map l2norm rows)
  end.

(** [x * y] and [x / y] on one-dimensional arrays, with numpy's
    broadcasting of a length-one operand. *)
Definition broadcast (op : float -> float -> float) (x y : list float)
  : result (list float) :=
  if length x =? length y then Ok (map (fun p => op (fst p) (snd p)) (combine x y))
  else match x, y with
       | _, [b] => Ok (map (fun a => op a b) x)
       | [a], _ => Ok (map (fun b => op a b) y)
       | _, _ => Raise ValueError
       end.

Definition multiply := broadcast PrimFloat.mul.
Definition divide := broadcast PrimFloat.div.

(** [np.dot(a, b.T).reshape(-1)] where [b] is the one-row array [[q]]
    (so [b.T] is one column): every row of [a] against [q]; the inner
    dimensions must agree. *)
Definition dot_column (a : ndarray) (q : list float) : result (list float) :=
  match a with
  | Arr1 v =>
      if length v =? length q then Ok [inner v q] else Raise ValueError
  | Arr2 rows =>
      if forallb (fun r => length r =? length q) rows
      then Ok (map (fun r => inner r q) rows) else Raise ValueError
  end.

(** [np.maximum] on two scalars: a NaN on either side is returned. *)
Definition maximum (a b : float) : float :=
  if (PrimFloat.leb b a || PrimFloat.is_nan a)%bool then a else b.

(** [v.max()]: the reduction has no identity, so the empty array raises. *)
Definition max (v : list float) : result float :=
  match v with
  | [] => Raise ValueError
  | x :: xs => Ok (fold_left maximum xs x)
  end.

(** [m] is the largest entry of [v] in numpy's sense: it is an entry of
    [v]; it is NaN when some entry is; and otherwise no entry exceeds it. *)
Definition is_maximum_of (m : float) (v : list float) : Prop :=
  In m v
  /\ ((exists x, In x v /\ PrimFloat.is_nan x = true) -> PrimFloat.is_nan m = true)
  /\ ((forall x, In x v -> PrimFloat.is_nan x = false) ->
      forall x, In x v -> PrimFloat.leb x m = true).

End Numpy.

Import Numpy.

(* ================================================================== *)
(** * The formula over the real numbers *)

Module Exact.

#[export] Instance real_arith : Arith R := {|
  a_zero := 0%R;
  a_add  := Rplus;
  a_mul  := Rmult;
  a_div  := Rdiv;
  a_sqrt := sqrt
|}.

End Exact.

Import Exact.

(* ================================================================== *)
(** * The tabular dataset *)

Module Table.

(** A column holds values of one type, as in the Arrow table behind
    [datasets.Dataset]: texts, numbers, or lists of texts (the retrieved
    contexts that evaluation tables carry along). *)
Inductive column : Type :=
| TextColumn (cells : list string)
| FloatColumn (cells : list float)
| ListColumn (cells : list (list string)).

Inductive cell : Type :=
| TextCell (s : string)
| FloatCell (x : float)
| ListCell (l : list string).

Definition column_length (c : column) : nat :=
  match c with
  | TextColumn l => length l
  | FloatColumn l => length l
  | ListColumn l => length l
  end.

Definition column_cell (c : column) (i : nat) : option cell :=
  match c with
  | TextColumn l => option_map TextCell (nth_error l i)
  | FloatColumn l => option_map FloatCell (nth_error l i)
  | ListColumn l => option_map ListCell (nth_error l i)
  end.

(** Rows of a column at the given positions, in the order given.
    Positions are in range when this is called. *)
Definition column_take (idx : list nat) (c : column) : column :=
  match c with
  | TextColumn l => TextColumn (map (fun i => nth i l EmptyString) idx)
  | FloatColumn l => FloatColumn (map (fun i => nth i l 0%float) idx)
  | ListColumn l => ListColumn (map (fun i => nth i l []) idx)
  end.

(** The table: named columns in their order. *)
Definition Dataset : Type := list (string * column).

Definition column_names (ds : Dataset) : list string := map fst ds.

(** [len(dataset)] *)
Definition num_rows (ds : Dataset) : nat :=
  match ds with
  | [] => 0
  | (_, c) :: _ => column_length c
  end.

(** What every [Dataset] object satisfies: distinct column names, and
    columns of one length. *)
Definition well_formed (ds : Dataset) : Prop :=
  NoDup (column_names ds) /\
  Forall (fun nc => column_length (snd nc) = num_rows ds) ds.

Fixpoint lookup (name : string) (ds : Dataset) : option column :=
  match ds with
  | [] => None
  | (n, c) :: rest => if String.eqb n name then Some c else lookup name rest
  end.

(** [dataset[name]] *)
Definition getitem (ds : Dataset) (name : string) : result column :=
  match lookup name ds with
  | Some c => Ok c
  | None => Raise KeyError
  end.

(** The row at position [i]: one named cell per column. *)
Definition row (ds : Dataset) (i : nat) : list (string * option cell) :=
  map (fun nc => (fst nc, column_cell (snd nc) i)) ds.

(** A Python [range(start, stop)]. *)
Record range : Type := { start : nat; stop : nat }.

Definition range_indices (r : range) : list nat :=
  seq (start r) (stop r - start r).

(** [dataset.select(indices)]: the rows at [indices], every column kept;
    a position outside the table raises. *)
Definition select (ds : Dataset) (indices : list nat) : result Dataset :=
  if forallb (fun i => i <? num_rows ds) indices
  then Ok (map (fun nc => (fst nc, column_take indices (snd nc))) ds)
  else Raise IndexError.

(** [dataset.add_column(name, column)]: the new column goes last; a name
    already in the table, or a column of another length, raises. *)
Definition add_column (ds : Dataset) (name : string) (col : list float)
  : result Dataset :=
  if existsb (String.eqb name) (column_names ds) then Raise ValueError
  else if negb (length col =? num_rows ds) then Raise ValueError
  else Ok (ds ++ [(name, FloatColumn col)]).

End Table.

Import Table.

(* ================================================================== *)
(** * The external services and the metric *)

Module Metric.

(** A chat prompt is a list of messages; the metric only builds human
    messages. *)
Inductive message : Type :=
| HumanMessage (content : string).

Definition ChatPromptTemplate : Type := list message.

Definition from_messages (ms : list message) : ChatPromptTemplate := ms.

(** The two clients held by the metric.  Each call may depend on, and
    change, the state [World] of the outside (the model samples anew at
    every call), and may raise. *)
Record Services (World : Type) : Type := {
  llm_generate :
    list ChatPromptTemplate -> nat -> World -> result (list (list string)) * World;
  embed_query :
    string -> World -> result (list float) * World;
  embed_documents :
    list string -> World -> result (list (list float)) * World
}.

(** What was asked of the services, in order. *)
Inductive call : Type :=
| Generate (prompts : list ChatPromptTemplate) (n : nat)
| EmbedQuery (text : string)
| EmbedDocuments (texts : list string).

Record state (World : Type) : Type := {
  world : World;
  trace : list call
}.

(** The dataclass fields of [AnswerRelevancy]; the two sizes are counts.
    [evaluation_mode] is not read by the methods below. *)
Record AnswerRelevancy : Type := {
  name : string;
  batch_size : nat;
  strictness : nat
}.

(** The module-level instance, with the declared defaults. *)
Definition answer_relevancy : AnswerRelevancy :=
  {| name := "answer_relevancy"; batch_size := 15; strictness := 3 |}.

Definition newline : string := String (ascii_of_nat 10) EmptyString.

(** The text of [QUESTION_GEN] before and after the [{answer}] slot. *)
Definition QUESTION_GEN_head : string :=
  newline ++
  "Generate question for the given answer." ++ newline ++
  "Answer:" ++ newline ++
  "The PSLV-C56 mission is scheduled to be launched on Sunday, 30 July 2023 at 06:30 IST / 01:00 UTC. It will be launched from the Satish Dhawan Space Centre, Sriharikota, Andhra Pradesh, India " ++ newline ++
  "Question: When is the scheduled launch date and time for the PSLV-C56 mission, and where will it be launched from?" ++ newline ++
  newline ++
  "Answer:".

Definition QUESTION_GEN_tail : string :=
  newline ++ "Question:" ++ newline.

(** [QUESTION_GEN.format(answer=ans)] *)
Definition QUESTION_GEN_format (ans : string) : message :=
  HumanMessage (QUESTION_GEN_head ++ ans ++ QUESTION_GEN_tail).

(** The cells of a text column.  The contract asks for text in the
    "question" and "answer" columns; what the clients would do with other
    values is outside this file, and the model stops there. *)
Definition text_cells (c : column) : result (list string) :=
  match c with
  | TextColumn l => Ok l
  | FloatColumn _ | ListColumn _ => Raise TypeError
  end.

(** Lines 86-98 once both embeddings are known: [question_vec] is the
    answer of [embed_query] (made the one-row array [[question_vec]] by
    [reshape(1, -1)]), [gen_rows] the answer of [embed_documents]. *)
Definition similarity_of_embeddings
    (question_vec : list float) (gen_rows : list (list float))
  : result (list float) :=
  match asarray2 gen_rows with
  | Raise e => Raise e
  | Ok gen_question_vec =>
    match linalg_norm_axis1 gen_question_vec with
    | Raise e => Raise e
    | Ok gen_norm =>
      match linalg_norm_axis1 (Arr2 [question_vec]) with
      | Raise e => Raise e
      | Ok question_norm =>
        match multiply gen_norm question_norm with
        | Raise e => Raise e
        | Ok norm =>
          match dot_column gen_question_vec question_vec with
          | Raise e => Raise e
          | Ok products => divide products norm
          end
        end
      end
    end
  end.

(** Modelled from the spec: the [k]-th range of [get_batches], which
    starts at [k * batch_size] and holds [batch_size] positions, or fewer
    when the table ends before. *)
Definition nth_batch (self : AnswerRelevancy) (dataset_size k : nat) : range :=
  let b := batch_size self in
  {| start := k * b; stop := Nat.min ((k + 1) * b) dataset_size |}.

(** Modelled from the spec: [get_batches] is inherited from the metric's
    base class in [ragas.metrics.base], which is not among the sources.
    The spec has it partition the row positions into contiguous ranges of
    size [batch_size], the last one shorter when the size does not divide
    the row count ([0:15], [15:30], [30:32] for 32 rows in batches of 15).
    The spec is silent on [batch_size = 0]; the model yields no range
    there. *)
Definition get_batches (self : AnswerRelevancy) (dataset_size : nat)
  : list range :=
  let b := batch_size self in
  map (nth_batch self dataset_size) (seq 0 ((dataset_size + b - 1) / b)).

(** The cells of a text column that [select] keeps for one batch. *)
Definition batch_questions (questions : list string) (batch : range)
  : list string :=
  map (fun i => nth i questions EmptyString) (range_indices batch).

(** [tqdm(iterable)] yields the items of [iterable]; the progress bar is
    display only. *)
Definition tqdm {A} (xs : list A) : list A := xs.

Section WithServices.
Variable World : Type.
Variable svc : Services World.

Let St : Type := state World.

Definition call_service {A} (c : call)
    (f : World -> result A * World) : M St A :=
  fun st =>
    let (r, w') := f (world st) in
    (r, {| world := w'; trace := trace st ++ [c] |}).

(** Modelled from the spec: [generate] comes from [ragas.metrics.llms],
    which is not among the sources.  The spec has the generation client
    consume a list of chat prompts and a repetition count and return,
    per prompt, the generated completions; the texts of the
    generations are what line 74 keeps. *)
Definition generate (prompts : list ChatPromptTemplate) (n : nat)
  : M St (list (list string)) :=
  call_service (Generate prompts n) (llm_generate svc prompts n).

(** [self.embedding.embed_query] and [self.embedding.embed_documents] *)
Definition embedding_embed_query (text : string) : M St (list float) :=
  call_service (EmbedQuery text) (embed_query svc text).

Definition embedding_embed_documents (texts : list string)
  : M St (list (list float)) :=
  call_service (EmbedDocuments texts) (embed_documents svc texts).

Definition calculate_similarity
    (question : string) (generated_questions : list string)
  : M St (list float) :=
  question_vec <- embedding_embed_query question ;;
  gen_rows <- embedding_embed_documents generated_questions ;;
  lift (similarity_of_embeddings question_vec gen_rows).

(** The body of the loop at lines 77-79 for one record. *)
Definition score_record (record : string * list string) : M St float :=
  let (question, gen_questions) := record in
  cosine_sim <- calculate_similarity question gen_questions ;;
  lift (Numpy.max cosine_sim).

Definition _score_batch (self : AnswerRelevancy) (dataset : Dataset)
  : M St (list float) :=
  question_column <- lift (getitem dataset "question") ;;
  answer_column <- lift (getitem dataset "answer") ;;
  questions <- lift (text_cells question_column) ;;
  answers <- lift (text_cells answer_column) ;;
  let prompts :=
    map (fun ans => from_messages [QUESTION_GEN_format ans]) answers in
  results <- generate prompts (strictness self) ;;
  for_in (combine questions results)
         (fun record scores =>
            m <- score_record record ;;
            ret (scores ++ [m]))
         [].

(** Line 60 for one batch: [self._score_batch(dataset.select(batch))]. *)
Definition score_selected (self : AnswerRelevancy) (dataset : Dataset)
    (batch : range) : M St (list float) :=
  selected <- lift (select dataset (range_indices batch)) ;;
  _score_batch self selected.

Definition score (self : AnswerRelevancy) (dataset : Dataset)
  : M St Dataset :=
  scores <-
    for_in (tqdm (get_batches self (num_rows dataset)))
           (fun batch scores =>
              score <- score_selected self dataset batch ;;
              ret (scores ++ score))
           [] ;;
  lift (add_column dataset (name self) scores).

End WithServices.

(** The generation requests in a trace: the prompts and the count asked
    for, one entry per call. *)
Definition generation_requests (t : list call)
  : list (list ChatPromptTemplate * nat) :=
  flat_map (fun c => match c with
                     | Generate prompts n => [(prompts, n)]
                     | _ => []
                     end) t.

(** What the spec asks of the generation client: per prompt, as many
    completions as requested, and no failure. *)
Definition generation_contract {World} (svc : Services World) : Prop :=
  forall prompts n w, exists gens w',
    llm_generate svc prompts n w = (Ok gens, w')
    /\ length gens = length prompts
    /\ Forall (fun g => length g = n) gens.

(** What the spec asks of the embedding client: vectors of one fixed
    length [d], one per text, and no failure. *)
Definition embedding_contract {World} (svc : Services World) (d : nat) : Prop :=
  (forall text w, exists v w',
      embed_query svc text w = (Ok v, w') /\ length v = d)
  /\ (forall texts w, exists rows w',
        embed_documents svc texts w = (Ok rows, w')
        /\ length rows = length texts
        /\ Forall (fun r => length r = d) rows).

End Metric.

Import Metric.

(* ================================================================== *)
(** * Stand-in services and sample tables, for running the metric *)

Module Stub.

(** The outside world only counts the calls it served. *)
Definition World : Type := nat.

(** Services that answer every prompt with [candidates n] and embed a
    text with [emb]. *)
Definition services (emb : string -> list float)
    (candidates : nat -> list string) : Services World :=
  {| llm_generate := fun prompts n w =>
       (Ok (map (fun _ => candidates n) prompts), S w);
     embed_query := fun text w => (Ok (emb text), S w);
     embed_documents := fun texts w => (Ok (map emb texts), S w) |}.

(** "x" lies on the first axis, every other text on the second. *)
Definition emb_axes (text : string) : list float :=
  if String.eqb text "x" then [1; 0]%float else [0; 1]%float.

(** One candidate equal to "x", the others different. *)
Definition one_hit (n : nat) : list string :=
  match n with
  | 0 => []
  | S k => "x"%string :: repeat "y"%string k
  end.

Definition axes : Services World := services emb_axes one_hit.

(** Every text gets the same vector [1, 1, 1]. *)
Definition diagonal : Services World :=
  services (fun _ => [1; 1; 1]%float) (fun n => repeat "x"%string n).

(** The question "x" and the generated "y" point in opposite directions. *)
Definition opposite : Services World :=
  services (fun t => if String.eqb t "x" then [1; 0]%float else [-1; 0]%float)
           (fun n => repeat "y"%string n).

(** The generated text embeds to the zero vector. *)
Definition vanishing : Services World :=
  services (fun t => if String.eqb t "x" then [1; 0]%float else [0; 0]%float)
           (fun n => repeat "y"%string n).

(** A model that returns no completion at all. *)
Definition silent : Services World :=
  services emb_axes (fun _ => []).

Definition init : state World := {| world := 0; trace := [] |}.

Definition three_rows : Dataset :=
  [ ("question"%string, TextColumn ["x"; "y"; "x"]%string);
    ("answer"%string,   TextColumn ["a"; "b"; "c"]%string);
    ("contexts"%string, ListColumn [["c1"; "c2"]; []; ["c3"]]%string) ].

Definition one_row : Dataset :=
  [ ("question"%string, TextColumn ["x"]%string);
    ("answer"%string,   TextColumn ["a"]%string) ].

Definition small_batches : AnswerRelevancy :=
  {| name := "answer_relevancy"; batch_size := 2; strictness := 3 |}.

End Stub.

(* ================================================================== *)
(** * Notions used to state what the methods do *)

Module Observed.

(** What scoring one record asks of the embedding client. *)
Definition embedding_calls (record : string * list string) : list call :=
  [EmbedQuery (fst record); EmbedDocuments (snd record)].

(** The request that [_score_batch] sends for the answers of one batch. *)
Definition batch_request (self : AnswerRelevancy) (answers : list string)
    (batch : range) : list ChatPromptTemplate * nat :=
  (map (fun ans => from_messages [QUESTION_GEN_format ans])
       (batch_questions answers batch),
   strictness self).

(** A binary64 number that is a zero or NaN. *)
Definition zero_or_nan (x : float) : Prop :=
  PrimFloat.is_zero x = true \/ PrimFloat.is_nan x = true.

(** The sum of the squares of a real vector. *)
Definition squares (v : list R) : R := sum (map (fun x => (x * x)%R) v).

End Observed.

Import Observed.

(* ================================================================== *)
(** * Stand-in services that fail, and tables that lack something *)

Module Faults.

(** The question "x" gets two coordinates, every other text three. *)
Definition mismatched : Services Stub.World :=
  Stub.services
    (fun t => if String.eqb t "x" then [1; 0]%float else [1; 0; 0]%float)
    (fun n => repeat "y"%string n).

(** A generation client that always fails. *)
Definition no_generation : Services Stub.World :=
  {| llm_generate := fun _ _ w => (Raise ServiceError, S w);
     embed_query := fun text w => (Ok (Stub.emb_axes text), S w);
     embed_documents := fun texts w => (Ok (map Stub.emb_axes texts), S w) |}.

(** A generation client that answers its first caller only. *)
Definition flaky : Services Stub.World :=
  {| llm_generate := fun prompts n w =>
       if w =? 0 then (Ok (map (fun _ => Stub.one_hit n) prompts), S w)
       else (Raise ServiceError, S w);
     embed_query := fun text w => (Ok (Stub.emb_axes text), S w);
     embed_documents := fun texts w => (Ok (map Stub.emb_axes texts), S w) |}.

(** An embedding client that fails on single texts. *)
Definition no_query : Services Stub.World :=
  {| llm_generate := fun prompts n w =>
       (Ok (map (fun _ => Stub.one_hit n) prompts), S w);
     embed_query := fun _ w => (Raise ServiceError, S w);
     embed_documents := fun texts w => (Ok (map Stub.emb_axes texts), S w) |}.

Definition no_answer_column : Dataset :=
  [ ("question"%string, TextColumn ["x"; "y"]%string) ].


Definition scored_before : Dataset :=
  Stub.one_row ++ [("answer_relevancy"%string, FloatColumn [0.5]%float)].

End Faults.

(* ================================================================== *)
(** * Batch slicing *)

Section Batches.
Variable self : AnswerRelevancy.
Hypothesis positive_batch : 0 < batch_size self.

Let b := batch_size self.

(** The number of batches is the row count divided by [b], rounded up. *)
Lemma batch_count_bounds total :
  let m := (total + b - 1) / b in
  total <= m * b /\ (0 < m -> (m - 1) * b < total).
Proof.
  intro m.
  assert (Hb : b <> 0) by (unfold b; lia).
  pose proof (Nat.div_mod_eq (total + b - 1) b) as E.
  pose proof (Nat.mod_upper_bound (total + b - 1) b Hb) as U.
  fold m in E. split; [nia|]. intro Hm.
  destruct m as [|m']; [lia|]. simpl. rewrite Nat.sub_0_r. nia.
Qed.

Lemma covered_prefix total k :
  k <= (total + b - 1) / b ->
  concat (map range_indices (map (nth_batch self total) (seq 0 k)))
  = seq 0 (Nat.min (k * b) total).
Proof.
  destruct (batch_count_bounds total) as [_ Hlast].
  induction k as [|k IH]; intro Hk.
  - reflexivity.
  - rewrite seq_S, !map_app, concat_app, IH by lia. simpl.
    rewrite app_nil_r. unfold range_indices, nth_batch. simpl. fold b.
    assert (k * b < total) by (specialize (Hlast ltac:(lia)); nia).
    rewrite (Nat.min_l (k * b) total) by lia.
    replace (Nat.min ((k + 1) * b) total - k * b)
      with (Nat.min (b + k * b) total - k * b) by (f_equal; f_equal; lia).
    rewrite <- seq_app. f_equal. lia.
Qed.

Lemma batches_cover total :
  concat (map range_indices (get_batches self total)) = seq 0 total.
Proof.
  unfold get_batches. fold b. rewrite covered_prefix by lia.
  destruct (batch_count_bounds total) as [H _].
  f_equal. lia.
Qed.

Lemma batches_nth total k r :
  nth_error (get_batches self total) k = Some r ->
  r = nth_batch self total k /\ k * b < total.
Proof.
  unfold get_batches. fold b. intro E.
  assert (Hk : k < (total + b - 1) / b).
  { assert (L : nth_error (map (nth_batch self total) (seq 0 ((total + b - 1) / b))) k <> None)
      by congruence.
    apply nth_error_Some in L. now rewrite length_map, length_seq in L. }
  rewrite nth_error_map, nth_error_seq in E.
  destruct (Nat.ltb_spec k ((total + b - 1) / b)); [|lia].
  simpl in E. injection E as <-. split; [reflexivity|].
  destruct (batch_count_bounds total) as [_ Hlast].
  specialize (Hlast ltac:(lia)). nia.
Qed.

Lemma batches_in_range total r :
  In r (get_batches self total) ->
  start r < stop r /\ stop r <= total /\ stop r - start r <= b.
Proof.
  intro Hin. apply In_nth_error in Hin as [k Hk].
  apply batches_nth in Hk as [-> Hlt].
  unfold nth_batch. simpl. fold b. lia.
Qed.

End Batches.

(* ================================================================== *)
(** * Facts about binary64 that the theorems use *)

Module Binary64.
Local Open Scope float_scope.

Lemma is_nan_spec x : is_nan x = true <-> Prim2SF x = S754_nan.
Proof.
  unfold is_nan. rewrite eqb_spec.
  destruct (Prim2SF x) as [[]|[]| |[] m e]; simpl; try (split; congruence);
    unfold SFeqb, SFcompare; rewrite Z.compare_refl, Pos.compare_cont_refl;
    simpl; split; congruence.
Qed.

Lemma is_zero_spec x : is_zero x = true <-> exists s, Prim2SF x = S754_zero s.
Proof.
  unfold is_zero. rewrite eqb_spec.
  change (Prim2SF zero) with (S754_zero false).
  destruct (Prim2SF x) as [s|[]| |[] m e]; cbv [SFeqb SFcompare]; split;
    try congruence; try (intros [s' E]; congruence); eauto.
Qed.

Lemma is_infinity_spec x :
  is_infinity x = true <-> exists s, Prim2SF x = S754_infinity s.
Proof.
  unfold is_infinity. rewrite eqb_spec, abs_spec.
  change (Prim2SF infinity) with (S754_infinity false).
  destruct (Prim2SF x) as [[]|[]| |[] m e]; cbv [SFeqb SFcompare SFabs]; split;
    try congruence; try (intros [s' E]; congruence); eauto.
Qed.

(** A product with a zero factor is a zero or NaN. *)
Lemma mul_zero_l x y :
  is_zero x = true -> is_zero (x * y) = true \/ is_nan (x * y) = true.
Proof.
  rewrite !is_zero_spec, is_nan_spec, mul_spec. intros [s ->].
  destruct (Prim2SF y) as [? | ? | | ? ? ?]; simpl; eauto.
Qed.

(** Division by a zero or by NaN gives NaN or an infinity. *)
Lemma div_degenerate x y :
  is_zero y = true \/ is_nan y = true ->
  is_nan (x / y) = true \/ is_infinity (x / y) = true.
Proof.
  rewrite is_zero_spec, !is_nan_spec, is_infinity_spec, div_spec.
  intros [[s ->] | ->];
    destruct (Prim2SF x) as [? | ? | | ? ? ?]; simpl; eauto.
Qed.

Lemma nan_or_inf_not_zero x :
  is_nan x = true \/ is_infinity x = true -> is_zero x = false.
Proof.
  rewrite is_nan_spec, is_infinity_spec. intro H.
  destruct (is_zero x) eqn:E; [|reflexivity].
  apply is_zero_spec in E as [s E]. destruct H as [H | [s' H]]; congruence.
Qed.

Lemma SFleb_trans x y z : SFleb x y = true -> SFleb y z = true -> SFleb x z = true.
Proof.
  unfold SFleb, SFcompare.
  destruct x as [[]|[]| |[] m1 e1], y as [[]|[]| |[] m2 e2], z as [[]|[]| |[] m3 e3];
    try discriminate; try reflexivity;
    rewrite ?Pos.compare_cont_spec; simpl;
    destruct (Z.compare_spec e1 e2), (Z.compare_spec e2 e3), (Z.compare_spec e1 e3);
    try discriminate; try reflexivity; try lia;
    destruct (Pos.compare_spec m1 m2), (Pos.compare_spec m2 m3), (Pos.compare_spec m1 m3);
    simpl; try discriminate; try reflexivity; try lia.
Qed.

Lemma SFleb_total x y :
  x <> S754_nan -> y <> S754_nan -> SFleb x y = true \/ SFleb y x = true.
Proof.
  unfold SFleb, SFcompare.
  destruct x as [[]|[]| |[] m1 e1], y as [[]|[]| |[] m2 e2];
    try congruence; auto; intros _ _;
    rewrite ?Pos.compare_cont_spec; simpl;
    destruct (Z.compare_spec e1 e2), (Z.compare_spec e2 e1); auto; try lia;
    destruct (Pos.compare_spec m1 m2), (Pos.compare_spec m2 m1); simpl; auto; try lia.
Qed.

Lemma SFleb_nan_r x : SFleb x S754_nan = false.
Proof. destruct x as [[]|[]| |[] ? ?]; reflexivity. Qed.

Lemma leb_trans x y z :
  PrimFloat.leb x y = true -> PrimFloat.leb y z = true ->
  PrimFloat.leb x z = true.
Proof. rewrite !leb_spec. apply SFleb_trans. Qed.

Lemma leb_total x y :
  is_nan x = false -> is_nan y = false ->
  PrimFloat.leb x y = true \/ PrimFloat.leb y x = true.
Proof.
  intros Hx Hy. rewrite !leb_spec. apply SFleb_total; intro E;
    apply is_nan_spec in E; congruence.
Qed.

Lemma leb_refl x : is_nan x = false -> PrimFloat.leb x x = true.
Proof. intro H. destruct (@leb_total x x H H); assumption. Qed.

Lemma leb_not_nan x y : PrimFloat.leb x y = true -> is_nan x = false /\ is_nan y = false.
Proof.
  rewrite leb_spec. intro H. split.
  - destruct (is_nan x) eqn:E; [|reflexivity]. apply is_nan_spec in E.
    rewrite E in H. discriminate.
  - destruct (is_nan y) eqn:E; [|reflexivity]. apply is_nan_spec in E.
    rewrite E, SFleb_nan_r in H. discriminate.
Qed.
End Binary64.

(* ================================================================== *)
(** * The numpy pipeline of [calculate_similarity] *)

Section Pipeline.
Local Open Scope float_scope.

Lemma broadcast_same op (x y : list float) :
  length x = length y ->
  broadcast op x y = Ok (map (fun p => op (fst p) (snd p)) (combine x y)).
Proof. intro E. unfold broadcast. now rewrite E, Nat.eqb_refl. Qed.

Lemma broadcast_scalar_r op (x : list float) (b : float) :
  broadcast op x [b] = Ok (map (fun a => op a b) x).
Proof.
  unfold broadcast. destruct (Nat.eqb_spec (length x) (length [b])) as [E|_].
  - destruct x as [|a [|a' x']]; try discriminate E. reflexivity.
  - now destruct x as [|a [|a' x']].
Qed.

Lemma asarray2_rect (rows : list (list float)) d :
  rows <> [] -> Forall (fun r => length r = d) rows ->
  asarray2 rows = Ok (Arr2 rows).
Proof.
  destruct rows as [|r rs]; [congruence|]. intros _ H.
  inversion H as [|? ? Hr Hrs]; subst. simpl.
  replace (forallb _ rs) with true; [reflexivity|].
  symmetry. apply forallb_forall. intros r' Hin.
  rewrite Forall_forall in Hrs. apply Nat.eqb_eq. now apply Hrs.
Qed.

Lemma combine_map_same {A B C} (f : A -> B) (g : A -> C) (l : list A) :
  combine (map f l) (map g l) = map (fun a => (f a, g a)) l.
Proof. induction l; simpl; congruence. Qed.

(** On a non-empty rectangular answer of the right width, the pipeline
    returns the similarity of every row. *)
Lemma similarity_of_embeddings_rect (q : list float) rows :
  rows <> [] -> Forall (fun r => length r = length q) rows ->
  similarity_of_embeddings q rows = Ok (map (cosine q) rows).
Proof.
  intros Hne Hrect. unfold similarity_of_embeddings.
  rewrite (asarray2_rect Hne Hrect). simpl.
  unfold multiply. rewrite broadcast_scalar_r.
  replace (forallb _ rows) with true.
  2:{ symmetry. apply forallb_forall. intros r Hin.
      rewrite Forall_forall in Hrect. apply Nat.eqb_eq. now apply Hrect. }
  unfold divide. rewrite broadcast_same by now rewrite !length_map.
  rewrite map_map, combine_map_same, map_map. reflexivity.
Qed.

(** No candidate at all: the array has one dimension only and the norm
    along axis 1 raises. *)
Lemma similarity_of_embeddings_empty (q : list float) :
  similarity_of_embeddings q [] = Raise AxisError.
Proof. reflexivity. Qed.

(** Whatever the pipeline returns has one entry per row. *)
Lemma similarity_of_embeddings_ok (q : list float) rows sims :
  similarity_of_embeddings q rows = Ok sims ->
  rows <> [] /\ sims = map (cosine q) rows.
Proof.
  intro E. assert (Hne : rows <> []) by (intros ->; discriminate E).
  split; [assumption|]. pose proof E as E0.
  unfold similarity_of_embeddings in E.
  destruct (asarray2 rows) as [a|] eqn:Ea; [|discriminate].
  destruct rows as [|r rs]; [congruence|]. simpl in Ea.
  destruct (forallb _ rs) eqn:Hrs; [|discriminate]. injection Ea as <-.
  cbn [linalg_norm_axis1 dot_column] in E. unfold multiply in E.
  change (map l2norm [q]) with [l2norm q] in E.
  rewrite broadcast_scalar_r in E.
  destruct (forallb _ (r :: rs)) eqn:Hq; [|discriminate].
  rewrite similarity_of_embeddings_rect in E0; [congruence|congruence|].
  apply Forall_forall. intros r' Hin.
  rewrite forallb_forall in Hq. apply Nat.eqb_eq. now apply Hq.
Qed.

(** ** The maximum *)

Lemma maximum_cases a b : maximum a b = a \/ maximum a b = b.
Proof. unfold maximum. destruct (_ || _)%bool; auto. Qed.

Lemma maximum_nan_l a b : is_nan a = true -> maximum a b = a.
Proof. unfold maximum. intros ->. now rewrite orb_true_r. Qed.

Lemma maximum_nan_r a b : is_nan a = false -> is_nan b = true -> maximum a b = b.
Proof.
  unfold maximum. intros Ha Hb. rewrite Ha, orb_false_r.
  destruct (PrimFloat.leb b a) eqn:E; [|reflexivity].
  apply Binary64.leb_not_nan in E. destruct E; congruence.
Qed.

Lemma maximum_upper a b :
  is_nan a = false -> is_nan b = false ->
  PrimFloat.leb a (maximum a b) = true /\ PrimFloat.leb b (maximum a b) = true
  /\ is_nan (maximum a b) = false.
Proof.
  intros Ha Hb. unfold maximum. rewrite Ha, orb_false_r.
  destruct (PrimFloat.leb b a) eqn:E.
  - repeat split; auto using Binary64.leb_refl.
  - destruct (Binary64.leb_total a b Ha Hb) as [L|L]; [|congruence].
    repeat split; auto using Binary64.leb_refl.
Qed.

Lemma fold_maximum_in xs : forall a, In (fold_left maximum xs a) (a :: xs).
Proof.
  induction xs as [|y xs IH]; intro a; simpl; [auto|].
  destruct (IH (maximum a y)) as [E|Hin]; [|auto].
  rewrite <- E. destruct (maximum_cases a y) as [-> | ->]; auto.
Qed.

Lemma fold_maximum_nan xs : forall a,
  (exists x, In x (a :: xs) /\ is_nan x = true) ->
  is_nan (fold_left maximum xs a) = true.
Proof.
  induction xs as [|y xs IH]; intros a (x & Hin & Hx); simpl in *.
  - destruct Hin as [<-|[]]. assumption.
  - apply IH. destruct (is_nan a) eqn:Ha.
    + exists (maximum a y). split; [now left|]. now rewrite maximum_nan_l.
    + destruct Hin as [<-|[<-|Hin]]; [congruence| |eauto].
      exists (maximum a y). split; [now left|]. now rewrite maximum_nan_r.
Qed.

Lemma fold_maximum_upper xs : forall a,
  (forall x, In x (a :: xs) -> is_nan x = false) ->
  forall x, In x (a :: xs) -> PrimFloat.leb x (fold_left maximum xs a) = true.
Proof.
  induction xs as [|y xs IH]; intros a Hnan x Hin; simpl in *.
  - destruct Hin as [<-|[]]. apply Binary64.leb_refl. auto.
  - destruct (@maximum_upper a y) as (La & Ly & Hm); [auto..|].
    assert (Hnan' : forall z, maximum a y = z \/ In z xs -> is_nan z = false).
    { intros z [<-|Hz]; auto. }
    pose proof (IH (maximum a y) Hnan' (maximum a y) (or_introl eq_refl)) as Lm.
    destruct Hin as [<-|[<-|Hin]].
    + exact (Binary64.leb_trans La Lm).
    + exact (Binary64.leb_trans Ly Lm).
    + apply IH; auto.
Qed.

Lemma max_is_maximum sims m : Numpy.max sims = Ok m -> is_maximum_of m sims.
Proof.
  destruct sims as [|x xs]; [discriminate|]. intros [= <-].
  split; [apply fold_maximum_in|].
  split; [apply fold_maximum_nan|apply fold_maximum_upper].
Qed.

Lemma nth_error_combine {X Y} (xs : list X) (ys : list Y) i x y :
  nth_error xs i = Some x -> nth_error ys i = Some y ->
  nth_error (combine xs ys) i = Some (x, y).
Proof.
  revert ys i. induction xs as [|x0 xs IH]; intros [|y0 ys] [|i] Hx Hy;
    simpl in *; try discriminate.
  - congruence.
  - auto.
Qed.

(** The similarity of a row whose norm is zero is NaN or an infinity. *)
Lemma cosine_zero_norm (q c : list float) :
  is_zero (l2norm c) = true ->
  is_nan (cosine q c) = true \/ is_infinity (cosine q c) = true.
Proof.
  intro Hz. unfold cosine. apply Binary64.div_degenerate.
  exact (@Binary64.mul_zero_l (l2norm c) (l2norm q) Hz).
Qed.

End Pipeline.

(* ================================================================== *)
(** * Loops that collect results *)

Section Loops.
Context {S A B C : Type}.
Variable f : A -> M S B.
Variable g : B -> list C.
Variable body : A -> list C -> M S (list C).
Hypothesis body_spec :
  forall x acc s, body x acc s = (y <- f x ;; ret (acc ++ g y)) s.

(** A loop whose body appends [g (f x)] returns normally exactly when
    every call of [f] does, and then returns what they returned, in
    order, after the initial accumulator. *)
Lemma for_in_collect xs : forall acc s out s',
  for_in xs body acc s = (Ok out, s') <->
  exists ys, runs f xs ys s s' /\ out = acc ++ concat (map g ys).
Proof.
  induction xs as [|x xs IH]; intros acc s out s'; simpl.
  - unfold ret. split.
    + intros [= <- <-]. exists []. split; [constructor|]. simpl.
      now rewrite app_nil_r.
    + intros (ys & R & ->). inversion R; subst. simpl. now rewrite app_nil_r.
  - unfold bind at 1. rewrite body_spec. unfold bind at 1, ret.
    destruct (f x s) as [[y|e] s1] eqn:E.
    + rewrite IH. split.
      * intros (ys & R & ->). exists (y :: ys). split; [econstructor; eauto|].
        simpl. now rewrite app_assoc.
      * intros (ys & R & ->). inversion R; subst.
        assert (y0 = y /\ s2 = s1) as [-> ->] by (split; congruence).
        exists ys0. split; [assumption|]. simpl. now rewrite app_assoc.
    + split; [discriminate|]. intros (ys & R & _). inversion R; congruence.
Qed.

(** A property of the state that every call of the body extends holds
    across the whole loop, also when it stops on an exception. *)
Lemma for_in_state (I : S -> S -> Prop) :
  (forall s, I s s) ->
  (forall s1 s2 s3, I s1 s2 -> I s2 s3 -> I s1 s3) ->
  (forall x s, I s (snd (f x s))) ->
  forall xs acc s, I s (snd (for_in xs body acc s)).
Proof.
  intros Irefl Itrans Istep. induction xs as [|x xs IH]; intros acc s; simpl.
  - apply Irefl.
  - unfold bind at 1. rewrite body_spec. unfold bind at 1, ret.
    pose proof (Istep x s) as H. destruct (f x s) as [[y|e] s1]; simpl in *.
    + eapply Itrans; [exact H|apply IH].
    + exact H.
Qed.
End Loops.

Section Runs.
Context {S A B : Type}.
Variable f : A -> M S B.

Lemma runs_length xs ys s s' : runs f xs ys s s' -> length ys = length xs.
Proof. induction 1; simpl; congruence. Qed.

(** Every item was handed to [f] in some state, and its result is the
    item's entry of the output. *)
Lemma runs_nth xs ys s s' :
  runs f xs ys s s' ->
  forall i x, nth_error xs i = Some x ->
  exists y s1 s2, nth_error ys i = Some y /\ f x s1 = (Ok y, s2).
Proof.
  induction 1 as [|x0 xs y0 ys s s1 s2 E R IH]; intros i x Hi.
  - destruct i; discriminate.
  - destruct i as [|i]; simpl in *.
    + injection Hi as <-. eauto.
    + eauto.
Qed.

Lemma runs_total (P : A -> B -> Prop) xs :
  (forall x, In x xs -> forall s, exists y s', f x s = (Ok y, s') /\ P x y) ->
  forall s, exists ys s', runs f xs ys s s' /\ Forall2 P xs ys.
Proof.
  induction xs as [|x xs IH]; intros H s.
  - exists [], s. split; constructor.
  - destruct (H x (or_introl eq_refl) s) as (y & s1 & E & Py).
    destruct (IH (fun x' Hin => H x' (or_intror Hin)) s1) as (ys & s2 & R & F).
    exists (y :: ys), s2. split; econstructor; eauto.
Qed.
End Runs.

(* ================================================================== *)
(** * Tables *)

Section Tables.

Lemma lookup_map_columns (h : column -> column) name (ds : Dataset) :
  lookup name (map (fun nc => (fst nc, h (snd nc))) ds)
  = option_map h (lookup name ds).
Proof.
  induction ds as [|[n c] ds IH]; simpl; [reflexivity|].
  destruct (String.eqb n name); [reflexivity|assumption].
Qed.

Lemma lookup_in_names name (ds : Dataset) :
  lookup name ds <> None <-> In name (column_names ds).
Proof.
  induction ds as [|[n c] ds IH]; simpl; [tauto|].
  destruct (String.eqb_spec n name) as [->|Hne].
  - split; [auto|congruence].
  - rewrite IH. split; [auto|]. intros [E|H]; [congruence|assumption].
Qed.

(** Appending a column does not change what the other names refer to. *)
Lemma lookup_app_last name n c (ds : Dataset) :
  name <> n -> lookup name (ds ++ [(n, c)]) = lookup name ds.
Proof.
  intro Hne. induction ds as [|[n' c'] ds IH]; simpl.
  - destruct (String.eqb_spec n name); congruence.
  - destruct (String.eqb n' name); [reflexivity|assumption].
Qed.

Lemma select_in_range (ds : Dataset) idx :
  Forall (fun i => i < num_rows ds) idx ->
  select ds idx
  = Ok (map (fun nc => (fst nc, column_take idx (snd nc))) ds).
Proof.
  intro H. unfold select. replace (forallb _ idx) with true; [reflexivity|].
  symmetry. apply forallb_forall. rewrite Forall_forall in H.
  intros i Hi. apply Nat.ltb_lt. auto.
Qed.

Lemma add_column_ok (ds out : Dataset) name col :
  add_column ds name col = Ok out ->
  out = ds ++ [(name, FloatColumn col)]
  /\ length col = num_rows ds
  /\ ~ In name (column_names ds).
Proof.
  unfold add_column.
  destruct (existsb _ _) eqn:Hex; [discriminate|].
  destruct (Nat.eqb_spec (length col) (num_rows ds)) as [El|]; [|discriminate].
  simpl. intros [= <-]. repeat split; [assumption|].
  intro Hin. assert (existsb (String.eqb name) (column_names ds) = true);
    [|congruence].
  apply existsb_exists. exists name. split; [assumption|apply String.eqb_refl].
Qed.

Lemma add_column_fresh (ds : Dataset) name col :
  ~ In name (column_names ds) -> length col = num_rows ds ->
  add_column ds name col = Ok (ds ++ [(name, FloatColumn col)]).
Proof.
  intros Hfresh Hlen. unfold add_column.
  destruct (existsb _ _) eqn:Hex.
  - apply existsb_exists in Hex as (n & Hin & E).
    apply String.eqb_eq in E. subst. contradiction.
  - now rewrite Hlen, Nat.eqb_refl.
Qed.

Lemma num_rows_app_last (ds : Dataset) name col :
  length col = num_rows ds ->
  num_rows (ds ++ [(name, FloatColumn col)]) = num_rows ds.
Proof. destruct ds as [|[n c] ds]; simpl; auto. Qed.

Lemma lookup_In name (ds : Dataset) c :
  lookup name ds = Some c -> In (name, c) ds.
Proof.
  induction ds as [|[n c'] ds IH]; simpl; [discriminate|].
  destruct (String.eqb_spec n name) as [->|_].
  - intros [= ->]. now left.
  - auto.
Qed.

(** In a well-formed table every column has as many cells as the table has
    rows. *)
Lemma well_formed_column (ds : Dataset) name c :
  well_formed ds -> lookup name ds = Some c -> column_length c = num_rows ds.
Proof.
  intros [_ Hall] Hc. apply lookup_In in Hc.
  rewrite Forall_forall in Hall. exact (Hall _ Hc).
Qed.

Lemma well_formed_app_last (ds : Dataset) name col :
  well_formed ds -> ~ In name (column_names ds) ->
  length col = num_rows ds ->
  well_formed (ds ++ [(name, FloatColumn col)]).
Proof.
  intros [Hnd Hall] Hfresh Hlen. split.
  - unfold column_names. rewrite map_app. simpl.
    apply NoDup_app; [assumption|repeat constructor; auto|].
    intros n Hn [<-|[]]. contradiction.
  - rewrite num_rows_app_last by assumption.
    apply Forall_app. split; [assumption|]. now repeat constructor.
Qed.

Lemma row_app_last (ds : Dataset) name c i :
  row (ds ++ [(name, c)]) i = row ds i ++ [(name, column_cell c i)].
Proof. unfold row. now rewrite map_app. Qed.

End Tables.

(* ================================================================== *)
(** * The methods of the metric *)

Section Methods.
Variable World : Type.
Variable svc : Services World.
Variable self : AnswerRelevancy.

Let St : Type := state World.

(** [calculate_similarity] once the two answers of the embedding client
    are named. *)
Lemma calculate_similarity_run question gens (st : St) qv w1 rows w2 :
  embed_query svc question (world st) = (Ok qv, w1) ->
  embed_documents svc gens w1 = (Ok rows, w2) ->
  calculate_similarity svc question gens st
  = (similarity_of_embeddings qv rows,
     {| world := w2;
        trace := trace st ++ [EmbedQuery question; EmbedDocuments gens] |}).
Proof.
  intros Eq Ed. unfold calculate_similarity, bind, embedding_embed_query,
    embedding_embed_documents, call_service, lift.
  rewrite Eq. simpl. rewrite Ed. now rewrite <- app_assoc.
Qed.

(** A normal return of [calculate_similarity] comes from normal returns
    of both embedding calls and of the numpy pipeline. *)
Lemma calculate_similarity_ok question gens (st st' : St) sims :
  calculate_similarity svc question gens st = (Ok sims, st') ->
  exists qv w1 rows w2,
    embed_query svc question (world st) = (Ok qv, w1)
    /\ embed_documents svc gens w1 = (Ok rows, w2)
    /\ similarity_of_embeddings qv rows = Ok sims.
Proof.
  unfold calculate_similarity, bind, embedding_embed_query,
    embedding_embed_documents, call_service, lift.
  destruct (embed_query svc question (world st)) as [[qv|e] w1] eqn:Eq;
    [|discriminate].
  simpl. destruct (embed_documents svc gens w1) as [[rows|e] w2] eqn:Ed;
    [|discriminate].
  intros [= E _]. exists qv, w1, rows, w2. auto.
Qed.

Lemma score_record_ok question gens (st st' : St) m :
  score_record svc (question, gens) st = (Ok m, st') ->
  exists sims st1,
    calculate_similarity svc question gens st = (Ok sims, st1)
    /\ Numpy.max sims = Ok m.
Proof.
  unfold score_record, bind, lift.
  destruct (calculate_similarity svc question gens st) as [[sims|e] st1];
    [|discriminate].
  intros [= E _]. eauto.
Qed.

(** The loop body of [_score_batch] is "append the record's score". *)
Lemma batch_body_spec (record : string * list string) (scores : list float)
    (st : St) :
  (m <- score_record svc record ;; ret (scores ++ [m])) st
  = (y <- score_record svc record ;; ret (scores ++ (fun m => [m]) y)) st.
Proof. reflexivity. Qed.

Lemma concat_singletons {X} (l : list X) : concat (map (fun m => [m]) l) = l.
Proof. induction l; simpl; congruence. Qed.

(** A normal return of [_score_batch]: both text columns were found, the
    generation call returned, and every record was scored in turn. *)
Lemma _score_batch_ok ds (st st' : St) scores :
  _score_batch svc self ds st = (Ok scores, st') ->
  exists questions answers results w1,
    lookup "question" ds = Some (TextColumn questions)
    /\ lookup "answer" ds = Some (TextColumn answers)
    /\ llm_generate svc
         (map (fun ans => from_messages [QUESTION_GEN_format ans]) answers)
         (strictness self) (world st) = (Ok results, w1)
    /\ runs (score_record svc) (combine questions results) scores
         {| world := w1;
            trace := trace st ++
              [Generate (map (fun ans => from_messages [QUESTION_GEN_format ans]) answers)
                        (strictness self)] |}
         st'.
Proof.
  unfold _score_batch, getitem. unfold bind at 1, lift at 1.
  destruct (lookup "question" ds) as [qc|]; [|discriminate].
  unfold bind at 1, lift at 1.
  destruct (lookup "answer" ds) as [ac|]; [|discriminate].
  unfold bind at 1, lift at 1.
  destruct qc as [questions| |]; try discriminate. simpl text_cells.
  unfold bind at 1, lift at 1.
  destruct ac as [answers| |]; try discriminate. simpl text_cells.
  unfold bind at 1, generate, call_service.
  destruct (llm_generate svc _ (strictness self) (world st))
    as [[results|e] w1] eqn:Eg; [|discriminate].
  intro E.
  apply (for_in_collect (score_record svc) (fun m => [m])) in E;
    [|intros; apply batch_body_spec].
  destruct E as (ys & R & ->). simpl. rewrite concat_singletons.
  exists questions, answers, results, w1. auto.
Qed.

Lemma score_ok ds (st st' : St) out :
  score svc self ds st = (Ok out, st') ->
  exists scores,
    out = ds ++ [(name self, FloatColumn scores)]
    /\ length scores = num_rows ds
    /\ ~ In (name self) (column_names ds).
Proof.
  unfold score. unfold bind at 1.
  match goal with
  | |- context [for_in ?xs ?body ?acc st] =>
      destruct (for_in xs body acc st) as [[scores|e] s1]; [|discriminate]
  end.
  unfold lift. intros [= E _]. exists scores. now apply add_column_ok.
Qed.

End Methods.

(* ================================================================== *)
(** * Normal returns under the services' contracts *)

Section Returns.
Variable World : Type.
Variable svc : Services World.
Variable self : AnswerRelevancy.
Variable d : nat.
Hypothesis generation_ok : generation_contract svc.
Hypothesis embedding_ok : embedding_contract svc d.
Hypothesis positive_strictness : 0 < strictness self.
Hypothesis positive_batch : 0 < batch_size self.

Let St : Type := state World.

Lemma score_record_returns question gens (st : St) :
  gens <> [] ->
  exists m st', score_record svc (question, gens) st = (Ok m, st').
Proof.
  intro Hne. destruct embedding_ok as [Hq Hd].
  destruct (Hq question (world st)) as (qv & w1 & Eq & Lq).
  destruct (Hd gens w1) as (rows & w2 & Ed & Lr & Hrect).
  unfold score_record, bind.
  rewrite (calculate_similarity_run _ _ _ _ Eq Ed).
  rewrite similarity_of_embeddings_rect.
  - destruct rows as [|r rows]; [destruct gens; [congruence|discriminate]|].
    unfold lift. simpl. eauto.
  - intros ->. destruct gens; [congruence|discriminate].
  - rewrite Lq. exact Hrect.
Qed.

Lemma _score_batch_returns ds questions answers (st : St) :
  lookup "question" ds = Some (TextColumn questions) ->
  lookup "answer" ds = Some (TextColumn answers) ->
  length questions = length answers ->
  exists scores st',
    _score_batch svc self ds st = (Ok scores, st')
    /\ length scores = length questions.
Proof.
  intros Lq La Hlen.
  set (prompts := map (fun ans => from_messages [QUESTION_GEN_format ans]) answers).
  destruct (generation_ok prompts (strictness self) (world st))
    as (results & w1 & Eg & Lg & Hn).
  destruct (runs_total (score_record svc) (fun _ _ => True)
              (combine questions results)) with
    (s := {| world := w1;
             trace := trace st ++ [Generate prompts (strictness self)] |})
    as (ys & st' & R & _).
  { intros [q gens] Hin s. apply in_combine_r in Hin.
    rewrite Forall_forall in Hn. specialize (Hn _ Hin).
    destruct (@score_record_returns q gens s) as (m & s' & E).
    - intros ->. simpl in Hn. lia.
    - eauto. }
  exists ys, st'. split.
  - unfold _score_batch, getitem. rewrite Lq, La.
    unfold bind at 1, lift at 1. unfold bind at 1, lift at 1.
    unfold bind at 1, lift at 1. simpl text_cells.
    unfold bind at 1, lift at 1. simpl text_cells.
    unfold bind at 1, generate, call_service. fold prompts. rewrite Eg.
    apply (for_in_collect (score_record svc) (fun m => [m]));
      [intros; apply batch_body_spec|].
    exists ys. split; [exact R|]. simpl. now rewrite concat_singletons.
  - rewrite (runs_length R), length_combine, Lg. unfold prompts.
    rewrite length_map. lia.
Qed.

Lemma score_selected_returns ds questions answers batch (st : St) :
  lookup "question" ds = Some (TextColumn questions) ->
  lookup "answer" ds = Some (TextColumn answers) ->
  In batch (get_batches self (num_rows ds)) ->
  exists scores st',
    score_selected svc self ds batch st = (Ok scores, st')
    /\ length scores = length (range_indices batch).
Proof.
  intros Lq La Hin.
  destruct (batches_in_range self positive_batch _ _ Hin) as (Hlt & Hstop & _).
  unfold score_selected, bind, lift.
  rewrite select_in_range.
  2:{ apply Forall_forall. intros i Hi. unfold range_indices in Hi.
      apply in_seq in Hi. lia. }
  set (take := column_take (range_indices batch)).
  destruct (@_score_batch_returns
              (map (fun nc => (fst nc, take (snd nc))) ds)
              (map (fun i => nth i questions EmptyString) (range_indices batch))
              (map (fun i => nth i answers EmptyString) (range_indices batch))
              st) as (scores & st' & E & L).
  - now rewrite lookup_map_columns, Lq.
  - now rewrite lookup_map_columns, La.
  - now rewrite !length_map.
  - exists scores, st'. split; [exact E|]. now rewrite L, length_map.
Qed.

Lemma concat_lengths (rs : list range) (ys : list (list float)) :
  Forall2 (fun r y => length y = length (range_indices r)) rs ys ->
  length (concat ys) = length (concat (map range_indices rs)).
Proof.
  induction 1; simpl; [reflexivity|]. rewrite !length_app. congruence.
Qed.

Lemma score_returns ds questions answers (st : St) :
  lookup "question" ds = Some (TextColumn questions) ->
  lookup "answer" ds = Some (TextColumn answers) ->
  ~ In (name self) (column_names ds) ->
  exists out st', score svc self ds st = (Ok out, st').
Proof.
  intros Lq La Hfresh.
  destruct (runs_total (score_selected svc self ds)
              (fun r y => length y = length (range_indices r))
              (get_batches self (num_rows ds))) with (s := st)
    as (ys & st' & R & F).
  { intros batch Hin s.
    destruct (@score_selected_returns ds questions answers batch s Lq La Hin)
      as (sc & s' & E & L). eauto. }
  exists (ds ++ [(name self, FloatColumn (concat ys))]), st'.
  unfold score. unfold bind at 1.
  replace (for_in _ _ _ st) with (@Ok (list float) (concat ys), st').
  - unfold lift. rewrite add_column_fresh; [reflexivity|assumption|].
    rewrite (concat_lengths F), batches_cover by assumption.
    apply length_seq.
  - symmetry.
    apply (for_in_collect (score_selected svc self ds) (fun l => l));
      [reflexivity|].
    exists ys. split; [exact R|]. simpl. now rewrite map_id.
Qed.

End Returns.

(* ================================================================== *)
(** * What the methods ask of the services *)

Section Requests.
Variable World : Type.
Variable svc : Services World.
Variable self : AnswerRelevancy.

Let St : Type := state World.

Lemma generation_requests_app t1 t2 :
  generation_requests (t1 ++ t2)
  = generation_requests t1 ++ generation_requests t2.
Proof. apply flat_map_app. Qed.

(** Scoring one record asks nothing of the generation client. *)
Lemma score_record_requests record (st : St) :
  generation_requests (trace (snd (score_record svc record st)))
  = generation_requests (trace st).
Proof.
  destruct record as [question gens].
  unfold score_record, calculate_similarity, bind, embedding_embed_query,
    embedding_embed_documents, call_service, lift.
  destruct (embed_query svc question (world st)) as [[qv|e] w1];
    cbn [snd trace world].
  - destruct (embed_documents svc gens w1) as [[rows|e] w2];
      [destruct (similarity_of_embeddings qv rows)|];
      cbn [snd trace world];
      rewrite !generation_requests_app; simpl; now rewrite !app_nil_r.
  - rewrite generation_requests_app. simpl. now rewrite app_nil_r.
Qed.

Lemma score_records_requests records acc (st : St) :
  generation_requests
    (trace (snd (for_in records
                   (fun record scores =>
                      m <- score_record svc record ;; ret (scores ++ [m]))
                   acc st)))
  = generation_requests (trace st).
Proof.
  apply (for_in_state (score_record svc) (fun m => [m])
           (fun record scores =>
              m <- score_record svc record ;; ret (scores ++ [m]))
           (fun _ _ _ => eq_refl)
           (fun s s' : St =>
              generation_requests (trace s') = generation_requests (trace s))).
  - reflexivity.
  - intros s1 s2 s3 H12 H23. congruence.
  - intros. apply score_record_requests.
Qed.

End Requests.

(* ================================================================== *)
(** * Scores stay with their rows *)

Section Blocks.
Context {X Y : Type}.

(** Two lists of blocks of matching lengths, flattened: an entry of the
    first flattening sits in some block at some offset, and the second
    flattening has, at the same position, the entry of the matching block
    at the same offset. *)
Lemma concat_nth_blocks (xss : list (list X)) (yss : list (list Y)) :
  Forall2 (fun xs ys => length ys = length xs) xss yss ->
  forall i x, nth_error (concat xss) i = Some x ->
  exists k j xs ys,
    nth_error xss k = Some xs /\ nth_error yss k = Some ys
    /\ nth_error xs j = Some x
    /\ nth_error (concat yss) i = nth_error ys j.
Proof.
  induction 1 as [|xs ys xss yss Hlen F IH]; intros i x Hi; simpl in *.
  - destruct i; discriminate.
  - destruct (Nat.lt_ge_cases i (length xs)) as [Hlt|Hge].
    + rewrite nth_error_app1 in Hi by assumption.
      exists 0, i, xs, ys. repeat split; try assumption.
      apply nth_error_app1. lia.
    + rewrite nth_error_app2 in Hi by assumption.
      destruct (IH _ _ Hi) as (k & j & xs' & ys' & Hx & Hy & Hj & Hc).
      exists (S k), j, xs', ys'. repeat split; try assumption.
      rewrite nth_error_app2 by lia. now rewrite Hlen.
Qed.

Lemma concat_lengths_le (xss : list (list X)) (yss : list (list Y)) :
  Forall2 (fun xs ys => length ys <= length xs) xss yss ->
  length (concat yss) <= length (concat xss).
Proof. induction 1; simpl; [lia|]. rewrite !length_app. lia. Qed.

(** Blocks that are each no longer than their match, and as long in total,
    are each as long as their match. *)
Lemma concat_lengths_tight (xss : list (list X)) (yss : list (list Y)) :
  Forall2 (fun xs ys => length ys <= length xs) xss yss ->
  length (concat yss) = length (concat xss) ->
  Forall2 (fun xs ys => length ys = length xs) xss yss.
Proof.
  induction 1 as [|xs ys xss yss Hle F IH]; intro Htot; [constructor|].
  simpl in Htot. rewrite !length_app in Htot.
  pose proof (concat_lengths_le F) as Hrest.
  constructor; [lia|]. apply IH. lia.
Qed.
End Blocks.

Section Alignment.
Variable World : Type.
Variable svc : Services World.
Variable self : AnswerRelevancy.

Let St : Type := state World.

Lemma runs_Forall2 {A B} (f : A -> M St B) xs ys (s s' : St) :
  runs f xs ys s s' ->
  Forall2 (fun x y => exists s1 s2, f x s1 = (Ok y, s2)) xs ys.
Proof. induction 1; constructor; eauto. Qed.

Lemma score_selected_ok ds questions batch (st st' : St) y :
  lookup "question" ds = Some (TextColumn questions) ->
  score_selected svc self ds batch st = (Ok y, st') ->
  exists results s0,
    runs (score_record svc)
         (combine (batch_questions questions batch) results) y s0 st'.
Proof.
  intros Lq. unfold score_selected, bind, lift, select.
  destruct (forallb _ (range_indices batch)); [|discriminate].
  intro E. apply _score_batch_ok in E
    as (qs & answers & results & w & Lq' & _ & _ & R).
  rewrite lookup_map_columns, Lq in Lq'. injection Lq' as <-.
  eauto.
Qed.

(** When [score] returns, the score at every position was computed by
    [score_record] from the question at that position. *)
Lemma score_aligned ds questions (st st' : St) out :
  0 < batch_size self ->
  lookup "question" ds = Some (TextColumn questions) ->
  length questions = num_rows ds ->
  score svc self ds st = (Ok out, st') ->
  exists scores,
    out = ds ++ [(name self, FloatColumn scores)]
    /\ forall i q, nth_error questions i = Some q ->
       exists m gens s1 s2,
         nth_error scores i = Some m
         /\ score_record svc (q, gens) s1 = (Ok m, s2).
Proof.
  intros Hb Lq Hrows E. pose proof E as E0.
  apply score_ok in E0 as (scores & -> & Hlen & _).
  exists scores. split; [reflexivity|].
  unfold score in E. unfold bind at 1 in E.
  match type of E with
  | context [for_in ?xs ?body ?acc st] =>
      destruct (for_in xs body acc st) as [[scores'|e] s1] eqn:Eloop;
        [|discriminate]
  end.
  unfold lift in E. injection E as E _.
  apply add_column_ok in E as (E & _ & _).
  apply app_inj_tail in E as [_ [= <-]].
  apply (for_in_collect (score_selected svc self ds) (fun l => l)) in Eloop;
    [|reflexivity].
  destruct Eloop as (ys & R & ->). simpl in *. rewrite map_id in *.
  unfold tqdm in R.
  set (batches := get_batches self (num_rows ds)) in *.
  assert (F : Forall2 (fun r y => exists results s0 s2,
                runs (score_record svc)
                     (combine (batch_questions questions r) results) y s0 s2)
              batches ys).
  { apply runs_Forall2 in R. eapply Forall2_impl; [|exact R].
    intros r y (s1' & s2' & Er).
    destruct (@score_selected_ok ds questions r s1' s2' y Lq Er)
      as (results & s0 & Rr). eauto. }
  assert (Ftight : Forall2 (fun idx y => length y = length idx)
                     (map range_indices batches) ys).
  { apply concat_lengths_tight.
    - clear -F. induction F as [|r y rs ys' (results & s0 & s2 & Rr) F IH];
        simpl; constructor; [|assumption].
      rewrite (runs_length Rr), length_combine.
      unfold batch_questions. rewrite length_map. lia.
    - unfold batches. rewrite batches_cover by assumption.
      now rewrite length_seq. }
  intros i q Hi.
  assert (Hlt : i < num_rows ds).
  { rewrite <- Hrows. apply nth_error_Some. congruence. }
  assert (Hpos : nth_error (concat (map range_indices batches)) i = Some i).
  { unfold batches. rewrite batches_cover by assumption.
    rewrite nth_error_seq. now apply Nat.ltb_lt in Hlt as ->. }
  destruct (concat_nth_blocks Ftight _ Hpos)
    as (k & j & idx & y & Hk & Hy & Hj & Hc).
  rewrite nth_error_map in Hk.
  destruct (nth_error batches k) as [r|] eqn:Hr; [|discriminate].
  injection Hk as <-.
  assert (Fk : exists results s0 s2,
             runs (score_record svc)
                  (combine (batch_questions questions r) results) y s0 s2
             /\ length y = length (range_indices r)).
  { clear -F Ftight Hr Hy. revert k Hr Hy.
    induction F as [|r0 y0 rs ys' H0 F IH]; intros [|k] Hr Hy;
      simpl in *; try discriminate.
    - injection Hr as ->. injection Hy as ->.
      destruct H0 as (results & s0 & s2 & Rr).
      inversion Ftight; subst. eauto 6.
    - inversion Ftight; subst. eauto. }
  destruct Fk as (results & s0 & s2 & Rr & Hly).
  assert (Hjlt : j < length (range_indices r)).
  { apply nth_error_Some. congruence. }
  assert (Hres : exists gens, nth_error results j = Some gens).
  { pose proof (runs_length Rr) as L. rewrite length_combine in L.
    unfold batch_questions in L. rewrite length_map in L.
    destruct (nth_error results j) as [g|] eqn:Eg; [eauto|].
    apply nth_error_None in Eg. lia. }
  destruct Hres as (gens & Hgens).
  assert (Hqj : nth_error (batch_questions questions r) j = Some q).
  { unfold batch_questions. rewrite nth_error_map, Hj. simpl.
    f_equal. now apply nth_error_nth. }
  pose proof (nth_error_combine _ _ _ Hqj Hgens) as Hcomb.
  destruct (runs_nth Rr _ Hcomb) as (m & s1' & s2' & Hm & Erec).
  exists m, gens, s1', s2'. split; [|exact Erec]. now rewrite Hc.
Qed.

End Alignment.

(* ================================================================== *)
(** * The stand-in services honour the contracts *)

Section StubFacts.

Lemma stub_generation emb candidates :
  (forall n, length (candidates n) = n) ->
  generation_contract (Stub.services emb candidates).
Proof.
  intros Hc prompts n w. exists (map (fun _ => candidates n) prompts), (S w).
  split; [reflexivity|]. split; [apply length_map|].
  apply Forall_forall. intros g Hin. apply in_map_iff in Hin as (_ & <- & _).
  apply Hc.
Qed.

Lemma stub_embedding emb candidates d :
  (forall text, length (emb text) = d) ->
  embedding_contract (Stub.services emb candidates) d.
Proof.
  intro He. split.
  - intros text w. exists (emb text), (S w). split; [reflexivity|apply He].
  - intros texts w. exists (map emb texts), (S w).
    split; [reflexivity|]. split; [apply length_map|].
    apply Forall_forall. intros r Hin. apply in_map_iff in Hin as (t & <- & _).
    apply He.
Qed.

Lemma one_hit_length n : length (Stub.one_hit n) = n.
Proof. destruct n; simpl; [reflexivity|]. now rewrite repeat_length. Qed.

Lemma emb_axes_length text : length (Stub.emb_axes text) = 2.
Proof. unfold Stub.emb_axes. now destruct (String.eqb text "x"). Qed.

Lemma axes_generation : generation_contract Stub.axes.
Proof. apply stub_generation, one_hit_length. Qed.

Lemma axes_embedding : embedding_contract Stub.axes 2.
Proof. apply stub_embedding, emb_axes_length. Qed.

End StubFacts.

(* ================================================================== *)
(** * The formula over the reals is scale invariant *)

Section ExactFormula.
Local Open Scope R_scope.

Lemma fold_Rplus_shift (l : list R) (a : R) :
  fold_left Rplus l a = a + fold_left Rplus l 0.
Proof.
  revert a. induction l as [|x l IH]; intro a; simpl.
  - ring.
  - rewrite (IH (a + x)), (IH (0 + x)). ring.
Qed.

Lemma sum_cons (x : R) (l : list R) : sum (x :: l) = x + sum l.
Proof. unfold sum. simpl. rewrite fold_Rplus_shift. ring. Qed.

Lemma sum_scaled {X} (h : X -> R) (k : R) (l : list X) :
  sum (map (fun x => k * h x) l) = k * sum (map h l).
Proof.
  induction l as [|x l IH]; simpl.
  - unfold sum. simpl. ring.
  - rewrite !sum_cons, IH. ring.
Qed.

Lemma combine_scale_l (k : R) (u v : list R) :
  combine (scale k u) v = map (fun p => (k * fst p, snd p)) (combine u v).
Proof.
  revert v. induction u as [|x u IH]; intros [|y v]; simpl; try reflexivity.
  now rewrite <- IH.
Qed.

Lemma combine_scale_r (k : R) (u v : list R) :
  combine u (scale k v) = map (fun p => (fst p, k * snd p)) (combine u v).
Proof.
  revert v. induction u as [|x u IH]; intros [|y v]; simpl; try reflexivity.
  now rewrite <- IH.
Qed.

Lemma inner_scale_l (k : R) (u v : list R) :
  inner (scale k u) v = k * inner u v.
Proof.
  unfold inner. rewrite combine_scale_l, map_map, <- sum_scaled.
  f_equal. apply map_ext. intros [x y]. simpl. ring.
Qed.

Lemma inner_scale_r (k : R) (u v : list R) :
  inner u (scale k v) = k * inner u v.
Proof.
  unfold inner. rewrite combine_scale_r, map_map, <- sum_scaled.
  f_equal. apply map_ext. intros [x y]. simpl. ring.
Qed.

Lemma l2norm_scale (k : R) (v : list R) :
  0 < k -> l2norm (scale k v) = k * l2norm v.
Proof.
  intro Hk. unfold l2norm, scale. rewrite map_map. simpl.
  replace (map (fun x => k * x * (k * x)) v)
    with (map (fun x => (k * k) * (x * x)) v)
    by (apply map_ext; intro; ring).
  rewrite sum_scaled, sqrt_mult_alt by nra.
  rewrite sqrt_square by lra. reflexivity.
Qed.

End ExactFormula.

(* ================================================================== *)
(** * The pipeline on literal vectors *)

(** A candidate so small that its squares underflow has computed norm
    zero, and its similarity is an infinity. *)
Example underflowing_candidate_is_infinite :
  similarity_of_embeddings [1; 0]%float [[0x1p-600; 0]]%float = Ok [infinity].
Proof. vm_compute. reflexivity. Qed.

(** The maximum of [1, 0, 0] is 1; the mean would be a third. *)
Example maximum_is_not_the_mean :
  Numpy.max [1; 0; 0]%float = Ok 1%float
  /\ PrimFloat.ltb (sum [1; 0; 0]%float / 3)%float 1 = true.
Proof. split; vm_compute; reflexivity. Qed.

(* ================================================================== *)
(** * The claims *)

(** C1.  Whenever [score] returns a table, that table is the input table
    with exactly one column appended, named by the metric's [name] and
    holding one score per input row: the row count is unchanged, the column
    names are the input's followed by [name], the row at every position is
    the input's row at that position followed by its score, a well-formed
    table stays well formed, and the score at a position was computed from
    the question at that position.  And [score] does return a table
    whenever the table has text columns "question" and "answer" and no
    column called [name], the batch size and the strictness are positive,
    and both services answer as the spec asks of them. *)
Theorem score_appends_one_column
    (World : Type) (svc : Services World) (self : AnswerRelevancy)
    (ds : Dataset) (st : state World) :
  (forall out st', score svc self ds st = (Ok out, st') ->
     exists scores,
       out = ds ++ [(name self, FloatColumn scores)]
       /\ length scores = num_rows ds
       /\ num_rows out = num_rows ds
       /\ column_names out = column_names ds ++ [name self]
       /\ (forall i, row out i
                     = row ds i ++ [(name self, option_map FloatCell (nth_error scores i))])
       /\ (well_formed ds -> well_formed out)
       /\ (well_formed ds -> 0 < batch_size self ->
           forall questions, lookup "question" ds = Some (TextColumn questions) ->
           forall i q, nth_error questions i = Some q ->
           exists m gens s1 s2,
             nth_error scores i = Some m
             /\ score_record svc (q, gens) s1 = (Ok m, s2)))
  /\ (forall d questions answers,
        generation_contract svc -> embedding_contract svc d ->
        0 < strictness self -> 0 < batch_size self ->
        lookup "question" ds = Some (TextColumn questions) ->
        lookup "answer" ds = Some (TextColumn answers) ->
        ~ In (name self) (column_names ds) ->
        exists out st', score svc self ds st = (Ok out, st')).
Proof.
  split.
  - intros out st' E. pose proof E as E0.
    apply score_ok in E0 as (scores & -> & Hlen & Hfresh).
    exists scores. split; [reflexivity|]. split; [assumption|].
    split; [now apply num_rows_app_last|].
    split; [unfold column_names; now rewrite map_app|].
    split; [intro i; apply row_app_last|].
    split; [intro Hwf; now apply well_formed_app_last|].
    intros Hwf Hb questions Lq i q Hi.
    destruct (@score_aligned _ svc self ds questions st st' _ Hb Lq
                (@well_formed_column ds "question" (TextColumn questions) Hwf Lq) E)
      as (scores' & Eout & H).
    apply app_inj_tail in Eout as [_ [= <-]]. now apply H.
  - intros d questions answers Hg He Hs Hb Lq La Hfresh.
    eapply score_returns; eauto.
Qed.

Lemma score_appends_one_column_witness :
  exists out st',
    score Stub.axes Stub.small_batches Stub.three_rows Stub.init = (Ok out, st')
    /\ num_rows out = 3
    /\ column_names out = ["question"; "answer"; "contexts"; "answer_relevancy"]%string.
Proof.
  destruct (score_appends_one_column Stub.axes Stub.small_batches
              Stub.three_rows Stub.init) as [Hshape Hreturns].
  destruct (Hreturns 2 ["x"; "y"; "x"]%string ["a"; "b"; "c"]%string
              axes_generation axes_embedding) as (out & st' & E).
  - simpl; lia.
  - simpl; lia.
  - reflexivity.
  - reflexivity.
  - simpl. intros [H|[H|[H|[]]]]; discriminate H.
  - exists out, st'. split; [exact E|].
    destruct (Hshape out st' E) as (scores & _ & _ & Hrows & Hnames & _).
    split; [exact Hrows|exact Hnames].
Defined.

(** C2.  When the embedding client returns the vector [qv] for the question
    and a non-empty list [rows] of vectors of the same length for the
    candidates, [calculate_similarity] returns, candidate by candidate and
    in order, the inner product of the candidate with [qv] divided by the
    product of their 2-norms.  For [qv = [1,0]] and rows [[1,0],[0,1]] it
    returns [1.0, 0.0], whose [max] is 1.0. *)
Theorem calculate_similarity_is_cosine
    (World : Type) (svc : Services World)
    (question : string) (gens : list string) (st : state World)
    (qv : list float) (w1 : World) (rows : list (list float)) (w2 : World) :
  embed_query svc question (world st) = (Ok qv, w1) ->
  embed_documents svc gens w1 = (Ok rows, w2) ->
  rows <> [] ->
  Forall (fun r => length r = length qv) rows ->
  fst (calculate_similarity svc question gens st)
  = Ok (map (fun c => (inner c qv / (l2norm c * l2norm qv))%float) rows)
  /\ similarity_of_embeddings [1; 0]%float [[1; 0]; [0; 1]]%float = Ok [1; 0]%float
  /\ Numpy.max [1; 0]%float = Ok 1%float.
Proof.
  intros Eq Ed Hne Hrect. split; [|split; reflexivity].
  rewrite (calculate_similarity_run _ _ _ _ Eq Ed). cbn [fst].
  now rewrite similarity_of_embeddings_rect.
Qed.

Lemma calculate_similarity_is_cosine_witness :
  fst (calculate_similarity Stub.axes "x" ["x"; "y"]%string Stub.init)
  = Ok [1; 0]%float.
Proof.
  refine (proj1 (@calculate_similarity_is_cosine _ Stub.axes "x"%string
                   ["x"; "y"]%string Stub.init
                   [1; 0]%float 1 [[1; 0]; [0; 1]]%float 2 _ _ _ _)).
  - reflexivity.
  - reflexivity.
  - discriminate.
  - repeat constructor.
Defined.

(** C3.  When [_score_batch] returns, the score at every position is the
    maximum of the similarities between that position's question and the
    candidates generated for that position's answer: it is one of these
    similarities, and no similarity is larger (numpy's [max] returns NaN as
    soon as one similarity is NaN).  Every candidate that the generation
    client returned for the record takes part; when both services answer
    as the spec asks of them, these are exactly [strictness] candidates. *)
Theorem score_is_maximum_similarity
    (World : Type) (svc : Services World) (self : AnswerRelevancy)
    (ds : Dataset) (st st' : state World) (scores : list float) :
  _score_batch svc self ds st = (Ok scores, st') ->
  exists questions answers results w,
    lookup "question" ds = Some (TextColumn questions)
    /\ lookup "answer" ds = Some (TextColumn answers)
    /\ llm_generate svc
         (map (fun ans => from_messages [QUESTION_GEN_format ans]) answers)
         (strictness self) (world st) = (Ok results, w)
    /\ forall i question gens,
         nth_error questions i = Some question ->
         nth_error results i = Some gens ->
         exists m qv rows w0 w1 w2,
           nth_error scores i = Some m
           /\ embed_query svc question w0 = (Ok qv, w1)
           /\ embed_documents svc gens w1 = (Ok rows, w2)
           /\ rows <> []
           /\ is_maximum_of m (map (cosine qv) rows)
           /\ (forall d, generation_contract svc -> embedding_contract svc d ->
                length rows = strictness self).
Proof.
  intro E. apply _score_batch_ok in E
    as (questions & answers & results & w & Lq & La & Eg & R).
  exists questions, answers, results, w. repeat (split; [assumption|]).
  intros i question gens Hq Hg.
  pose proof (nth_error_combine _ _ _ Hq Hg) as Hi.
  destruct (runs_nth R _ Hi) as (m & s1 & s2 & Hm & Erec).
  apply score_record_ok in Erec as (sims & s3 & Ecs & Emax).
  apply calculate_similarity_ok in Ecs as (qv & w1 & rows & w2 & Eq & Ed & Esim).
  apply similarity_of_embeddings_ok in Esim as [Hne ->].
  exists m, qv, rows, (world s1), w1, w2.
  repeat (split; [assumption|]). split; [now apply max_is_maximum|].
  intros d Hgen [_ Hdocs].
  destruct (Hgen (map (fun ans => from_messages [QUESTION_GEN_format ans]) answers)
              (strictness self) (world st)) as (results' & w' & Eg' & _ & Hn).
  rewrite Eg in Eg'. injection Eg' as <- <-.
  destruct (Hdocs gens w1) as (rows' & w2' & Ed' & Hlen & _).
  rewrite Ed in Ed'. injection Ed' as <- <-.
  rewrite Hlen. rewrite Forall_forall in Hn. apply Hn.
  eapply nth_error_In; eassumption.
Qed.

Lemma score_is_maximum_similarity_witness :
  exists m,
    nth_error [1; 1; 1]%float 0 = Some m
    /\ is_maximum_of m (map (cosine [1; 0]%float) [[1; 0]; [0; 1]; [0; 1]]%float).
Proof.
  destruct (@score_is_maximum_similarity _ Stub.axes answer_relevancy
              Stub.three_rows Stub.init
              (snd (_score_batch Stub.axes answer_relevancy Stub.three_rows Stub.init))
              [1; 1; 1]%float)
    as (questions & answers & results & w & Lq & La & Eg & H).
  - vm_compute. reflexivity.
  - injection Lq as <-. injection La as <-. injection Eg as <- _.
    destruct (H 0 "x"%string ["x"; "y"; "y"]%string eq_refl eq_refl)
      as (m & qv & rows & w0 & w1 & w2 & Hm & Eq & Ed & _ & Hmax & _).
    injection Eq as <- <-. injection Ed as <- _.
    exists m. split; [exact Hm|exact Hmax].
Defined.

(** C4.  Scores outside the interval from 0 to 1, on the code as it
    stands.  With an embedding that sends every text to [1, 1, 1], a
    generated question equal to the original scores 1.0000000000000002,
    above 1; with a question and a generated question embedded in opposite
    directions the score is -1, below 0. *)
Theorem score_leaves_unit_interval :
  (fst (score Stub.diagonal answer_relevancy Stub.one_row Stub.init)
   = Ok (Stub.one_row
         ++ [("answer_relevancy"%string, FloatColumn [0x1.0000000000001p+0]%float)])
   /\ PrimFloat.ltb 1 0x1.0000000000001p+0 = true)
  /\ (fst (score Stub.opposite answer_relevancy Stub.one_row Stub.init)
      = Ok (Stub.one_row
            ++ [("answer_relevancy"%string, FloatColumn [-1]%float)])
      /\ PrimFloat.ltb (-1) 0 = true).
Proof. repeat split; vm_compute; reflexivity. Qed.

(** C5.  With a positive batch size, [get_batches] cuts the row positions
    [0 .. total-1] into ranges that, taken in order, list every position
    exactly once and in increasing order (no gap, no overlap, full cover);
    the [k]-th range starts at [k * batch_size] and is not empty; a range
    followed by another has exactly [batch_size] positions and ends where
    the next one starts; and 32 rows in batches of 15 give [0:15], [15:30],
    [30:32]. *)
Theorem get_batches_partitions (self : AnswerRelevancy) (total : nat) :
  0 < batch_size self ->
  concat (map range_indices (get_batches self total)) = seq 0 total
  /\ (forall k r, nth_error (get_batches self total) k = Some r ->
        start r = k * batch_size self
        /\ stop r = Nat.min (start r + batch_size self) total
        /\ start r < stop r)
  /\ (forall k r r', nth_error (get_batches self total) k = Some r ->
        nth_error (get_batches self total) (S k) = Some r' ->
        stop r = start r' /\ stop r - start r = batch_size self)
  /\ get_batches answer_relevancy 32
     = [ {| start := 0; stop := 15 |};
         {| start := 15; stop := 30 |};
         {| start := 30; stop := 32 |} ].
Proof.
  intro Hb. split; [now apply batches_cover|]. split; [|split].
  - intros k r E. apply batches_nth in E as [-> Hlt]; [|assumption].
    unfold nth_batch. simpl. lia.
  - intros k r r' E E'.
    apply batches_nth in E as [-> Hlt]; [|assumption].
    apply batches_nth in E' as [-> Hlt']; [|assumption].
    unfold nth_batch. simpl. lia.
  - reflexivity.
Qed.

Lemma get_batches_partitions_witness :
  0 < batch_size answer_relevancy
  /\ concat (map range_indices (get_batches answer_relevancy 32)) = seq 0 32.
Proof.
  split; [simpl; lia|].
  apply (get_batches_partitions answer_relevancy 32). simpl; lia.
Defined.

(** C6.  On a batch with text columns "question" and "answer",
    [_score_batch] sends the generation client exactly one request; the
    request carries one prompt per answer of the batch, in order, each the
    [QUESTION_GEN] text with that answer filled in, and asks for
    [strictness] completions per prompt, whose declared default is 3. *)
Theorem score_batch_requests_strictness
    (World : Type) (svc : Services World) (self : AnswerRelevancy)
    (ds : Dataset) (st : state World) (questions answers : list string) :
  lookup "question" ds = Some (TextColumn questions) ->
  lookup "answer" ds = Some (TextColumn answers) ->
  exists prompts,
    generation_requests (trace (snd (_score_batch svc self ds st)))
    = generation_requests (trace st) ++ [(prompts, strictness self)]
    /\ length prompts = length answers
    /\ (forall i ans, nth_error answers i = Some ans ->
          nth_error prompts i
          = Some [HumanMessage (QUESTION_GEN_head ++ ans ++ QUESTION_GEN_tail)])
    /\ strictness answer_relevancy = 3.
Proof.
  intros Lq La.
  exists (map (fun ans => from_messages [QUESTION_GEN_format ans]) answers).
  split; [|split; [apply length_map|split; [|reflexivity]]].
  - unfold _score_batch, getitem. rewrite Lq, La.
    unfold bind at 1, lift at 1. unfold bind at 1, lift at 1.
    unfold bind at 1, lift at 1. simpl text_cells.
    unfold bind at 1, lift at 1. simpl text_cells.
    unfold bind at 1, generate, call_service.
    destruct (llm_generate svc _ (strictness self) (world st))
      as [[results|e] w1]; cbn [snd].
    + rewrite score_records_requests. cbn [trace].
      rewrite generation_requests_app. reflexivity.
    + cbn [trace]. rewrite generation_requests_app. reflexivity.
  - intros i ans Hi. rewrite nth_error_map, Hi. reflexivity.
Qed.

Lemma score_batch_requests_strictness_witness :
  exists prompts,
    generation_requests
      (trace (snd (_score_batch Stub.axes answer_relevancy Stub.three_rows Stub.init)))
    = [(prompts, 3)]
    /\ length prompts = 3.
Proof.
  destruct (@score_batch_requests_strictness _ Stub.axes answer_relevancy
              Stub.three_rows Stub.init
              ["x"; "y"; "x"]%string ["a"; "b"; "c"]%string
              eq_refl eq_refl) as (prompts & Hreq & Hlen & _).
  exists prompts. split; [exact Hreq|exact Hlen].
Defined.

(** C7.  When the embedding client returns vectors of the question's
    length and the candidate at position [i] has 2-norm zero,
    [calculate_similarity] still returns, and its entry at position [i] is
    NaN or an infinity, never zero: the division by the zero norm is
    carried out as it stands. *)
Theorem zero_norm_candidate_is_undefined
    (World : Type) (svc : Services World)
    (question : string) (gens : list string) (st : state World)
    (qv : list float) (w1 : World) (rows : list (list float)) (w2 : World)
    (i : nat) (c : list float) :
  embed_query svc question (world st) = (Ok qv, w1) ->
  embed_documents svc gens w1 = (Ok rows, w2) ->
  Forall (fun r => length r = length qv) rows ->
  nth_error rows i = Some c ->
  is_zero (l2norm c) = true ->
  exists sims s,
    fst (calculate_similarity svc question gens st) = Ok sims
    /\ nth_error sims i = Some s
    /\ (is_nan s = true \/ is_infinity s = true)
    /\ is_zero s = false.
Proof.
  intros Eq Ed Hrect Hi Hz.
  exists (map (cosine qv) rows), (cosine qv c).
  rewrite (calculate_similarity_run _ _ _ _ Eq Ed). cbn [fst].
  split; [|split; [|split]].
  - apply similarity_of_embeddings_rect; [|assumption].
    intros ->. destruct i; discriminate.
  - now rewrite nth_error_map, Hi.
  - now apply cosine_zero_norm.
  - apply Binary64.nan_or_inf_not_zero. now apply cosine_zero_norm.
Qed.

Lemma zero_norm_candidate_is_undefined_witness :
  exists sims s,
    fst (calculate_similarity Stub.vanishing "x" ["y"]%string Stub.init) = Ok sims
    /\ nth_error sims 0 = Some s
    /\ (is_nan s = true \/ is_infinity s = true)
    /\ is_zero s = false.
Proof.
  refine (@zero_norm_candidate_is_undefined _ Stub.vanishing "x"%string
            ["y"]%string Stub.init [1; 0]%float 1 [[0; 0]]%float 2 0 [0; 0]%float
            _ _ _ _ _).
  - reflexivity.
  - reflexivity.
  - repeat constructor.
  - reflexivity.
  - reflexivity.
Defined.

(** C8.  When [score] returns, every column of the input is in the output
    under the same name with the same content; the output's columns are the
    input's, in the input's order, followed by the score column alone; and
    every name other than the metric's [name] refers to the same thing in
    the input and in the output. *)
Theorem score_passes_columns_through
    (World : Type) (svc : Services World) (self : AnswerRelevancy)
    (ds out : Dataset) (st st' : state World) :
  score svc self ds st = (Ok out, st') ->
  (forall c col, lookup c ds = Some col -> lookup c out = Some col)
  /\ (forall c, c <> name self -> lookup c out = lookup c ds)
  /\ firstn (length ds) out = ds
  /\ length out = S (length ds).
Proof.
  intro E. apply score_ok in E as (scores & -> & _ & Hfresh).
  split; [|split; [|split]].
  - intros c col Hc. rewrite lookup_app_last; [assumption|].
    intros ->. apply Hfresh, lookup_in_names. congruence.
  - intros c Hc. now apply lookup_app_last.
  - rewrite firstn_app, Nat.sub_diag, firstn_all. simpl. apply app_nil_r.
  - rewrite length_app. simpl. lia.
Qed.

Lemma score_passes_columns_through_witness :
  lookup "contexts"
    (Stub.three_rows ++ [("answer_relevancy"%string, FloatColumn [1; 1; 1]%float)])
  = Some (ListColumn [["c1"; "c2"]; []; ["c3"]]%string).
Proof.
  refine (proj1 (@score_passes_columns_through _ Stub.axes Stub.small_batches
                   Stub.three_rows _ Stub.init
                   (snd (score Stub.axes Stub.small_batches Stub.three_rows Stub.init))
                   _) "contexts"%string _ _).
  - vm_compute. reflexivity.
  - reflexivity.
Defined.

(** C9.  When the generation client returned no candidate for a record of
    the batch (and the embedding client returns no vector for no text),
    scoring that record raises in every state, so [_score_batch] raises and
    returns no score.  The array of no candidates has a single dimension,
    so the norm along axis 1 is what raises; the maximum of an empty
    similarity vector raises as well. *)
Theorem empty_candidates_raise
    (World : Type) (svc : Services World) (self : AnswerRelevancy)
    (ds : Dataset) (st : state World)
    (questions answers : list string) (results : list (list string))
    (w : World) (i : nat) (question : string) :
  (forall w0 rows w1, embed_documents svc [] w0 = (Ok rows, w1) -> rows = []) ->
  lookup "question" ds = Some (TextColumn questions) ->
  lookup "answer" ds = Some (TextColumn answers) ->
  llm_generate svc
    (map (fun ans => from_messages [QUESTION_GEN_format ans]) answers)
    (strictness self) (world st) = (Ok results, w) ->
  nth_error questions i = Some question ->
  nth_error results i = Some [] ->
  (forall s, is_ok (fst (score_record svc (question, []) s)) = false)
  /\ is_ok (fst (_score_batch svc self ds st)) = false
  /\ (forall qv, similarity_of_embeddings qv [] = Raise AxisError)
  /\ Numpy.max [] = Raise ValueError.
Proof.
  intros Hnone Lq La Eg Hq Hg.
  assert (Hrec : forall s, is_ok (fst (score_record svc (question, []) s)) = false).
  { intro s. destruct (score_record svc (question, []) s) as [[m|e] s'] eqn:E;
      [|reflexivity].
    apply score_record_ok in E as (sims & s1 & Ecs & _).
    apply calculate_similarity_ok in Ecs as (qv & w1 & rows & w2 & _ & Ed & Esim).
    apply similarity_of_embeddings_ok in Esim as [Hne _].
    apply Hnone in Ed. contradiction. }
  split; [exact Hrec|]. split; [|split; [apply similarity_of_embeddings_empty|reflexivity]].
  destruct (_score_batch svc self ds st) as [[scores|e] st'] eqn:E; [|reflexivity].
  apply _score_batch_ok in E
    as (questions' & answers' & results' & w' & Lq' & La' & Eg' & R).
  rewrite Lq in Lq'. injection Lq' as <-.
  rewrite La in La'. injection La' as <-.
  rewrite Eg in Eg'. injection Eg' as <- <-.
  pose proof (nth_error_combine _ _ _ Hq Hg) as Hi.
  destruct (runs_nth R _ Hi) as (m & s1 & s2 & _ & Erec).
  specialize (Hrec s1). rewrite Erec in Hrec. discriminate.
Qed.

Lemma empty_candidates_raise_witness :
  is_ok (fst (_score_batch Stub.silent answer_relevancy Stub.one_row Stub.init))
  = false.
Proof.
  refine (proj1 (proj2 (@empty_candidates_raise _ Stub.silent answer_relevancy
                          Stub.one_row Stub.init
                          ["x"]%string ["a"]%string [[]] 1 0 "x"%string
                          _ _ _ _ _ _))).
  - intros w0 rows w1 E. simpl in E. now injection E as <- _.
  - reflexivity.
  - reflexivity.
  - reflexivity.
  - reflexivity.
  - reflexivity.
Defined.

(** C10, as stated, fails in binary64: tripling the candidate [3, 4], or
    the question [1, 2], changes the similarity that the pipeline of
    [calculate_similarity] returns, although 3 is positive and both norms
    are non-zero. *)
Lemma binary64_similarity_depends_on_scale :
  PrimFloat.ltb 0 3 = true
  /\ is_zero (l2norm [3; 4]%float) = false
  /\ is_zero (l2norm [1; 2]%float) = false
  /\ similarity_of_embeddings [1; 2]%float [scale 3%float [3; 4]%float]
     <> similarity_of_embeddings [1; 2]%float [[3; 4]%float]
  /\ similarity_of_embeddings (scale 3%float [1; 2]%float) [[3; 4]%float]
     <> similarity_of_embeddings [1; 2]%float [[3; 4]%float].
Proof.
  pose (same := fun r : result (list float) =>
          match r with
          | Ok [x] => PrimFloat.eqb x (cosine [1; 2]%float [3; 4]%float)
          | _ => false
          end).
  repeat split; try (vm_compute; reflexivity);
    intro H; apply (f_equal same) in H; vm_compute in H; discriminate H.
Qed.

(** C10, amended.  Read over the real numbers, the similarity formula of
    [calculate_similarity] does not change when the candidate, or the
    question, is multiplied by a positive number, provided both norms are
    non-zero. *)
Theorem exact_similarity_scale_invariant (q v : list R) (k : R) :
  (0 < k)%R ->
  l2norm v <> 0%R ->
  l2norm q <> 0%R ->
  cosine q (scale k v) = cosine q v
  /\ cosine (scale k q) v = cosine q v.
Proof.
  intros Hk Hv Hq. unfold cosine.
  rewrite inner_scale_l, inner_scale_r, !l2norm_scale by assumption.
  simpl. split; field; repeat split; try assumption; lra.
Qed.

Lemma exact_similarity_scale_invariant_witness :
  cosine [1%R; 0%R] (scale 2%R [1%R; 0%R]) = cosine [1%R; 0%R] [1%R; 0%R].
Proof.
  assert (Hnorm : l2norm [1%R; 0%R] <> 0%R).
  { unfold l2norm, sum. simpl.
    replace (0 + 1 * 1 + 0 * 0)%R with 1%R by ring.
    rewrite sqrt_1. lra. }
  refine (proj1 (@exact_similarity_scale_invariant [1%R; 0%R] [1%R; 0%R] 2%R
                   _ Hnorm Hnorm)).
  lra.
Defined.

(* ================================================================== *)
(** * Further lemmas: loops that raise, what is asked of the services,
      shapes, degenerate vectors *)

Section MoreLoops.
Context {S A B C : Type}.
Variable f : A -> M S B.
Variable g : B -> list C.
Variable body : A -> list C -> M S (list C).
Hypothesis body_spec :
  forall x acc s, body x acc s = (y <- f x ;; ret (acc ++ g y)) s.

(** The loop stops at the first item on which [f] raises: it raises the
    same exception in the state that [f] left, whatever follows. *)
Lemma for_in_raise pre x post : forall ys acc s s1 s2 e,
  runs f pre ys s s1 -> f x s1 = (Raise e, s2) ->
  for_in (pre ++ x :: post) body acc s = (Raise e, s2).
Proof.
  induction pre as [|p pre IH]; intros ys acc s s1 s2 e R E; simpl.
  - inversion R; subst. unfold bind at 1. rewrite body_spec.
    unfold bind at 1. now rewrite E.
  - inversion R as [|? ? y ys' ? sa ? Ep R']; subst.
    unfold bind at 1. rewrite body_spec. unfold bind at 1, ret. rewrite Ep.
    eapply IH; eassumption.
Qed.
End MoreLoops.

Section Protocol.
Variable World : Type.
Variable svc : Services World.
Variable self : AnswerRelevancy.

Let St : Type := state World.

Lemma score_record_trace record (st st' : St) m :
  score_record svc record st = (Ok m, st') ->
  trace st' = trace st ++ embedding_calls record.
Proof.
  destruct record as [question gens].
  unfold score_record, calculate_similarity, bind, embedding_embed_query,
    embedding_embed_documents, call_service, lift.
  destruct (embed_query svc question (world st)) as [[qv|e] w1];
    [|discriminate].
  cbn [world trace].
  destruct (embed_documents svc gens w1) as [[rows|e] w2]; [|discriminate].
  destruct (similarity_of_embeddings qv rows); [|discriminate].
  intros [= _ <-]. cbn [trace]. now rewrite <- app_assoc.
Qed.

Lemma runs_record_trace records ys (st st' : St) :
  runs (score_record svc) records ys st st' ->
  trace st' = trace st ++ flat_map embedding_calls records.
Proof.
  induction 1 as [s|x xs y ys s s1 s2 E R IH]; simpl.
  - now rewrite app_nil_r.
  - rewrite IH, (score_record_trace _ _ E). now rewrite <- app_assoc.
Qed.

Lemma embedding_calls_no_request records :
  generation_requests (flat_map embedding_calls records) = [].
Proof. induction records as [|r rs IH]; simpl; [reflexivity|assumption]. Qed.

(** A normal return of [_score_batch], with everything it asked. *)
Lemma _score_batch_trace ds (st st' : St) scores :
  _score_batch svc self ds st = (Ok scores, st') ->
  exists questions answers results w,
    lookup "question" ds = Some (TextColumn questions)
    /\ lookup "answer" ds = Some (TextColumn answers)
    /\ llm_generate svc
         (map (fun ans => from_messages [QUESTION_GEN_format ans]) answers)
         (strictness self) (world st) = (Ok results, w)
    /\ length scores = Nat.min (length questions) (length results)
    /\ trace st'
       = trace st
         ++ Generate (map (fun ans => from_messages [QUESTION_GEN_format ans]) answers)
                     (strictness self)
         :: flat_map embedding_calls (combine questions results).
Proof.
  intro E. apply _score_batch_ok in E
    as (questions & answers & results & w & Lq & La & Eg & R).
  exists questions, answers, results, w. repeat (split; [assumption|]).
  split.
  - now rewrite (runs_length R), length_combine.
  - rewrite (runs_record_trace R). cbn [trace]. now rewrite <- app_assoc.
Qed.

Lemma score_unfold ds (st : St) :
  score svc self ds st
  = match for_in (tqdm (get_batches self (num_rows ds)))
            (fun batch scores =>
               score <- score_selected svc self ds batch ;;
               ret (scores ++ score)) [] st with
    | (Ok scores, s1) => (add_column ds (name self) scores, s1)
    | (Raise e, s1) => (Raise e, s1)
    end.
Proof. reflexivity. Qed.

Lemma score_selected_requests ds answers batch (st st' : St) y :
  lookup "answer" ds = Some (TextColumn answers) ->
  score_selected svc self ds batch st = (Ok y, st') ->
  generation_requests (trace st')
  = generation_requests (trace st) ++ [batch_request self answers batch].
Proof.
  intros La. unfold score_selected, bind, lift, select.
  destruct (forallb _ (range_indices batch)); [|discriminate].
  intro E. apply _score_batch_trace in E
    as (qs & answers' & results & w & _ & La' & _ & _ & ->).
  rewrite lookup_map_columns, La in La'. injection La' as <-.
  rewrite generation_requests_app. simpl.
  now rewrite embedding_calls_no_request.
Qed.

Lemma runs_selected_requests ds answers batches ys (st st' : St) :
  lookup "answer" ds = Some (TextColumn answers) ->
  runs (score_selected svc self ds) batches ys st st' ->
  generation_requests (trace st')
  = generation_requests (trace st) ++ map (batch_request self answers) batches.
Proof.
  intro La. induction 1 as [s|r rs y ys s s1 s2 E R IH]; simpl.
  - now rewrite app_nil_r.
  - rewrite IH, (@score_selected_requests ds answers r s s1 y La E).
    now rewrite <- app_assoc.
Qed.


End Protocol.

Section Shapes.
Local Open Scope float_scope.

(** Every outcome of the numpy pipeline, by the shape of the candidates'
    embeddings. *)
Lemma similarity_of_embeddings_cases (q : list float) rows :
  similarity_of_embeddings q rows
  = match rows with
    | [] => Raise AxisError
    | _ :: _ =>
        if forallb (fun r => (length r =? length q)%nat) rows
        then Ok (map (cosine q) rows) else Raise ValueError
    end.
Proof.
  destruct rows as [|r rs]; [reflexivity|].
  destruct (forallb _ (r :: rs)) eqn:Hq.
  - apply similarity_of_embeddings_rect; [discriminate|].
    apply Forall_forall. intros r' Hin. rewrite forallb_forall in Hq.
    apply Nat.eqb_eq. now apply Hq.
  - unfold similarity_of_embeddings. cbn [asarray2].
    destruct (forallb (fun r' => (length r' =? length r)%nat) rs); [|reflexivity].
    cbn [linalg_norm_axis1]. unfold multiply.
    change (map l2norm [q]) with [l2norm q]. rewrite broadcast_scalar_r.
    cbn [dot_column]. now rewrite Hq.
Qed.

Lemma add_column_clash (ds : Dataset) name col :
  In name (column_names ds) -> add_column ds name col = Raise ValueError.
Proof.
  intro Hin. unfold add_column.
  replace (existsb (String.eqb name) (column_names ds)) with true; [reflexivity|].
  symmetry. apply existsb_exists. exists name. split; [assumption|].
  apply String.eqb_refl.
Qed.
End Shapes.

Section Failures.
Variable World : Type.
Variable svc : Services World.
Variable self : AnswerRelevancy.

Let St : Type := state World.

Lemma _score_batch_missing ds (st : St) :
  lookup "question" ds = None \/ lookup "answer" ds = None ->
  _score_batch svc self ds st = (Raise KeyError, st).
Proof.
  intro H. unfold _score_batch, getitem, bind, lift.
  destruct (lookup "question" ds); [|reflexivity].
  destruct H as [H|H]; [discriminate|]. now rewrite H.
Qed.

Lemma first_batch total :
  0 < batch_size self -> 0 < total ->
  exists r rest,
    get_batches self total = r :: rest
    /\ Forall (fun i => i < total) (range_indices r).
Proof.
  intros Hb Hn.
  destruct (get_batches self total) as [|r rest] eqn:E.
  - pose proof (batches_cover self Hb total) as C. rewrite E in C.
    destruct total; [lia|discriminate].
  - exists r, rest. split; [reflexivity|].
    destruct (@batches_in_range self Hb total r) as (_ & Hstop & _).
    { rewrite E. now left. }
    apply Forall_forall. intros i Hi. unfold range_indices in Hi.
    apply in_seq in Hi. lia.
Qed.

Lemma concat_batch_lengths answers (batches : list range) :
  length (concat (map fst (map (batch_request self answers) batches)))
  = length (concat (map range_indices batches)).
Proof.
  induction batches as [|r rs IH]; simpl; [reflexivity|].
  rewrite !length_app, IH. unfold batch_questions.
  now rewrite !length_map.
Qed.

End Failures.

Section LoopReturns.
Variable World : Type.
Variable svc : Services World.
Variable self : AnswerRelevancy.
Variable d : nat.
Hypothesis generation_ok : generation_contract svc.
Hypothesis embedding_ok : embedding_contract svc d.
Hypothesis positive_strictness : 0 < strictness self.
Hypothesis positive_batch : 0 < batch_size self.

(** Under the services' contracts every batch is scored, and the batches'
    scores are as many as the table has rows. *)
Lemma score_loop_returns ds questions answers (st : state World) :
  lookup "question" ds = Some (TextColumn questions) ->
  lookup "answer" ds = Some (TextColumn answers) ->
  exists ys st',
    runs (score_selected svc self ds) (get_batches self (num_rows ds)) ys st st'
    /\ length (concat ys) = num_rows ds.
Proof.
  intros Lq La.
  destruct (runs_total (score_selected svc self ds)
              (fun r y => length y = length (range_indices r))
              (get_batches self (num_rows ds))) with (s := st)
    as (ys & st' & R & F).
  { intros batch Hin s.
    destruct (@score_selected_returns World svc self d generation_ok embedding_ok
                positive_strictness positive_batch ds questions answers batch s
                Lq La Hin) as (sc & s' & E & L). eauto. }
  exists ys, st'. split; [exact R|].
  rewrite (concat_lengths F), batches_cover by assumption. apply length_seq.
Qed.
End LoopReturns.

Section ZeroVectors.
Local Open Scope float_scope.

Lemma zero_or_nan_spec x :
  zero_or_nan x <-> (exists s, Prim2SF x = S754_zero s) \/ Prim2SF x = S754_nan.
Proof. unfold zero_or_nan. now rewrite Binary64.is_zero_spec, Binary64.is_nan_spec. Qed.

Lemma zero_or_nan_add x y : zero_or_nan x -> zero_or_nan y -> zero_or_nan (x + y).
Proof.
  rewrite !zero_or_nan_spec, add_spec.
  intros [[sx ->] | ->] [[sy ->] | ->]; simpl; auto.
  destruct sx, sy; simpl; eauto.
Qed.

Lemma zero_or_nan_mul x y : zero_or_nan x -> zero_or_nan (x * y).
Proof.
  rewrite !zero_or_nan_spec, mul_spec.
  intros [[sx ->] | ->]; destruct (Prim2SF y) as [? | ? | | ? ? ?]; simpl; eauto.
Qed.

Lemma zero_or_nan_sqrt x : zero_or_nan x -> zero_or_nan (PrimFloat.sqrt x).
Proof.
  rewrite !zero_or_nan_spec, sqrt_spec.
  intros [[sx ->] | ->]; simpl; eauto.
Qed.

Lemma zero_or_nan_div x y : zero_or_nan x -> zero_or_nan y -> is_nan (x / y) = true.
Proof.
  rewrite !zero_or_nan_spec, Binary64.is_nan_spec, div_spec.
  intros [[sx ->] | ->] [[sy ->] | ->]; reflexivity.
Qed.

Lemma zero_or_nan_fold l : forall a,
  zero_or_nan a -> Forall zero_or_nan l -> zero_or_nan (fold_left PrimFloat.add l a).
Proof.
  induction l as [|x l IH]; intros a Ha Hl; simpl; [assumption|].
  inversion Hl; subst. apply IH; [now apply zero_or_nan_add|assumption].
Qed.

Lemma zero_or_nan_zero : zero_or_nan 0.
Proof. left. reflexivity. Qed.

Lemma inner_zero_vector (c q : list float) :
  Forall (fun x => is_zero x = true) c -> zero_or_nan (inner c q).
Proof.
  intro Hc. unfold inner, sum. apply zero_or_nan_fold; [apply zero_or_nan_zero|].
  revert q. induction Hc as [|x c Hx Hc IH]; intros [|y q]; simpl; constructor.
  - apply zero_or_nan_mul. now left.
  - apply IH.
Qed.

Lemma l2norm_zero_vector (c : list float) :
  Forall (fun x => is_zero x = true) c -> zero_or_nan (l2norm c).
Proof.
  intro Hc. unfold l2norm, sum. apply zero_or_nan_sqrt.
  apply zero_or_nan_fold; [apply zero_or_nan_zero|].
  induction Hc; simpl; constructor; [|assumption].
  apply zero_or_nan_mul. now left.
Qed.

Lemma cosine_zero_vector (q c : list float) :
  Forall (fun x => is_zero x = true) c -> is_nan (cosine q c) = true.
Proof.
  intro Hc. unfold cosine. apply zero_or_nan_div.
  - now apply inner_zero_vector.
  - apply zero_or_nan_mul. now apply l2norm_zero_vector.
Qed.

(* commutativity *)
Lemma SFmul_comm prec emax x y : SFmul prec emax x y = SFmul prec emax y x.
Proof.
  destruct x as [sx|sx| |sx mx ex], y as [sy|sy| |sy my ey]; simpl;
    rewrite ?(xorb_comm sx sy); try reflexivity.
  now rewrite Pos.mul_comm, Z.add_comm.
Qed.

Lemma mul_comm x y : x * y = y * x.
Proof. apply Prim2SF_inj. rewrite !mul_spec. apply SFmul_comm. Qed.

Lemma inner_comm (u v : list float) : inner u v = inner v u.
Proof.
  unfold inner. f_equal. revert v.
  induction u as [|x u IH]; intros [|y v]; simpl; try reflexivity.
  now rewrite IH, mul_comm.
Qed.

Lemma cosine_comm (q c : list float) : cosine q c = cosine c q.
Proof.
  unfold cosine. rewrite inner_comm. f_equal. apply mul_comm.
Qed.
End ZeroVectors.

Section ExactRange.
Local Open Scope R_scope.

Lemma squares_nonneg v : 0 <= squares v.
Proof.
  unfold squares. induction v as [|x v IH]; simpl.
  - unfold sum. simpl. lra.
  - rewrite sum_cons. nra.
Qed.

Lemma step_bound a b S A B :
  0 <= A -> 0 <= B -> S * S <= A * B ->
  (a * b + S) * (a * b + S) <= (a * a + A) * (b * b + B).
Proof.
  intros HA HB HS.
  assert (H : 2 * (a * b) * S <= a * a * B + b * b * A).
  { destruct (Rle_lt_or_eq_dec 0 B HB) as [Hpos | <-].
    - pose proof (Rle_0_sqr (a * B - b * S)) as Hsq. unfold Rsqr in Hsq.
      assert (0 <= b * b * (A * B - S * S))
        by (apply Rmult_le_pos; [apply (Rle_0_sqr b)|lra]).
      assert (B * (2 * (a * b) * S) <= B * (a * a * B + b * b * A)) by lra.
      apply Rmult_le_reg_l with B; assumption.
    - assert (S = 0) by nra. subst. nra. }
  nra.
Qed.

Lemma cauchy_schwarz (u v : list R) :
  inner u v * inner u v <= squares u * squares v.
Proof.
  revert v. induction u as [|a u IH]; intros [|b v].
  - unfold inner, squares, sum. simpl. lra.
  - pose proof (squares_nonneg (b :: v)). unfold inner, squares at 1, sum. simpl. nra.
  - pose proof (squares_nonneg (a :: u)). unfold inner, squares at 2, sum. simpl. nra.
  - unfold inner, squares in *. simpl. rewrite !sum_cons.
    apply step_bound; [apply squares_nonneg..|apply IH].
Qed.

Lemma l2norm_squares v : l2norm v = sqrt (squares v).
Proof. reflexivity. Qed.

Lemma inner_le_norms (u v : list R) :
  Rabs (inner u v) <= l2norm u * l2norm v.
Proof.
  rewrite !l2norm_squares, <- sqrt_mult_alt by apply squares_nonneg.
  rewrite <- sqrt_Rsqr_abs. apply sqrt_le_1_alt. unfold Rsqr. apply cauchy_schwarz.
Qed.

Lemma l2norm_nonneg v : 0 <= l2norm v.
Proof. rewrite l2norm_squares. apply sqrt_pos. Qed.

End ExactRange.

(* ================================================================== *)
(** * Further properties of the methods *)

(** X1.  By the shape of what the embedding client returned,
    [calculate_similarity] raises [AxisError] when there is no candidate
    row, raises [ValueError] when the candidate rows have one common length
    that is not the length of the question's vector, and returns exactly
    when there is at least one row and all rows have the question's
    length. *)
Theorem calculate_similarity_shape_errors
    (World : Type) (svc : Services World)
    (question : string) (gens : list string) (st : state World)
    (qv : list float) (w1 : World) (rows : list (list float)) (w2 : World) :
  embed_query svc question (world st) = (Ok qv, w1) ->
  embed_documents svc gens w1 = (Ok rows, w2) ->
  (rows = [] -> fst (calculate_similarity svc question gens st) = Raise AxisError)
  /\ (forall d, rows <> [] -> Forall (fun r => length r = d) rows ->
      d <> length qv ->
      fst (calculate_similarity svc question gens st) = Raise ValueError)
  /\ (is_ok (fst (calculate_similarity svc question gens st)) = true <->
      rows <> [] /\ Forall (fun r => length r = length qv) rows).
Proof.
  intros Eq Ed. rewrite (calculate_similarity_run _ _ _ _ Eq Ed). cbn [fst].
  rewrite similarity_of_embeddings_cases.
  destruct rows as [|r rs].
  - split; [reflexivity|]. split; [intros d H; congruence|]. simpl.
    split; [discriminate|]. intros [H _]. congruence.
  - destruct (forallb _ (r :: rs)) eqn:Hq.
    + assert (Hall : Forall (fun r' => length r' = length qv) (r :: rs)).
      { apply Forall_forall. intros r' Hin. rewrite forallb_forall in Hq.
        apply Nat.eqb_eq. now apply Hq. }
      split; [discriminate|]. split.
      * intros d _ Hd Hne. inversion Hall; subst. inversion Hd; subst.
        congruence.
      * simpl. split; [|reflexivity]. intros _. split; [discriminate|assumption].
    + split; [discriminate|]. split; [reflexivity|]. simpl.
      split; [discriminate|]. intros [_ Hall].
      assert (forallb (fun r0 => length r0 =? length qv) (r :: rs) = true);
        [|congruence].
      apply forallb_forall. intros r' Hin. rewrite Forall_forall in Hall.
      apply Nat.eqb_eq. now apply Hall.
Qed.

Lemma calculate_similarity_shape_errors_witness :
  fst (calculate_similarity Faults.mismatched "x" ["y"]%string Stub.init)
  = Raise ValueError.
Proof.
  refine (proj1 (proj2 (@calculate_similarity_shape_errors _ Faults.mismatched
            "x"%string ["y"]%string Stub.init [1; 0]%float 1
            [[1; 0; 0]]%float 2 eq_refl eq_refl)) 3 _ _ _).
  - discriminate.
  - repeat constructor.
  - simpl. lia.
Defined.

(** X2.  [calculate_similarity] asks the embedding client for the question
    first and for the candidates second, once each; when the first call
    raises, the candidates are never sent and the exception is passed on
    with the client's state; when the second call raises, its exception is
    passed on. *)
Theorem calculate_similarity_call_protocol
    (World : Type) (svc : Services World)
    (question : string) (gens : list string) (st : state World) :
  trace (snd (calculate_similarity svc question gens st))
  = trace st
    ++ EmbedQuery question
       :: (if is_ok (fst (embed_query svc question (world st)))
           then [EmbedDocuments gens] else [])
  /\ (forall e w, embed_query svc question (world st) = (Raise e, w) ->
        calculate_similarity svc question gens st
        = (Raise e, {| world := w; trace := trace st ++ [EmbedQuery question] |}))
  /\ (forall qv w1 e w2,
        embed_query svc question (world st) = (Ok qv, w1) ->
        embed_documents svc gens w1 = (Raise e, w2) ->
        fst (calculate_similarity svc question gens st) = Raise e).
Proof.
  unfold calculate_similarity, bind, embedding_embed_query,
    embedding_embed_documents, call_service, lift.
  destruct (embed_query svc question (world st)) as [[qv|e] w1] eqn:Eq;
    cbn [world trace fst is_ok].
  - destruct (embed_documents svc gens w1) as [[rows|e] w2] eqn:Ed;
      cbn [snd trace fst].
    + split; [now rewrite <- app_assoc|]. split; [discriminate|].
      intros qv' w1' e' w2' [= <- <-] Ed'. rewrite Ed in Ed'. discriminate.
    + split; [now rewrite <- app_assoc|]. split; [discriminate|].
      intros qv' w1' e' w2' [= <- <-] Ed'. rewrite Ed in Ed'.
      now injection Ed' as <- _.
  - split; [reflexivity|]. split; [|discriminate].
    intros e' w' [= <- <-]. reflexivity.
Qed.

Lemma calculate_similarity_call_protocol_witness :
  calculate_similarity Faults.no_query "x" ["y"]%string Stub.init
  = (Raise ServiceError, {| world := 1; trace := [EmbedQuery "x"] |}).
Proof.
  exact (proj1 (proj2 (@calculate_similarity_call_protocol _ Faults.no_query
                         "x"%string ["y"]%string Stub.init))
           ServiceError 1 eq_refl).
Defined.

(** X3.  When the embedding of one generated candidate is the zero vector
    (and all rows have the question's length), that record's score is NaN,
    whatever the other candidates are: the candidate's similarity is NaN
    and [max] hands NaN on. *)
Theorem zero_candidate_poisons_score
    (World : Type) (svc : Services World)
    (question : string) (gens : list string) (st : state World)
    (qv : list float) (w1 : World) (rows : list (list float)) (w2 : World)
    (c : list float) :
  embed_query svc question (world st) = (Ok qv, w1) ->
  embed_documents svc gens w1 = (Ok rows, w2) ->
  Forall (fun r => length r = length qv) rows ->
  In c rows ->
  Forall (fun x => is_zero x = true) c ->
  exists m,
    fst (score_record svc (question, gens) st) = Ok m
    /\ is_nan m = true.
Proof.
  intros Eq Ed Hrect Hin Hzero.
  unfold score_record, bind.
  rewrite (calculate_similarity_run _ _ _ _ Eq Ed).
  rewrite similarity_of_embeddings_rect; [|intros ->; contradiction|assumption].
  unfold lift. cbn [fst].
  destruct (Numpy.max (map (cosine qv) rows)) as [m|e] eqn:Emax.
  - exists m. split; [reflexivity|].
    destruct (max_is_maximum _ Emax) as (_ & Hnan & _). apply Hnan.
    exists (cosine qv c). split; [now apply in_map|].
    now apply cosine_zero_vector.
  - destruct rows; [contradiction|discriminate].
Qed.

Lemma zero_candidate_poisons_score_witness :
  exists m,
    fst (score_record Stub.vanishing ("x", ["x"; "y"])%string Stub.init) = Ok m
    /\ is_nan m = true.
Proof.
  refine (@zero_candidate_poisons_score _ Stub.vanishing "x"%string
            ["x"; "y"]%string Stub.init [1; 0]%float 1
            [[1; 0]; [0; 0]]%float 2 [0; 0]%float eq_refl eq_refl _ _ _).
  - repeat constructor.
  - right. now left.
  - repeat constructor.
Defined.

(** X4.  The similarity is symmetric on binary64: a question vector and a
    candidate of the same length can be exchanged without changing the
    value that the pipeline of [calculate_similarity] returns. *)
Theorem similarity_symmetric (q c : list float) :
  length c = length q ->
  similarity_of_embeddings q [c] = similarity_of_embeddings c [q]
  /\ cosine q c = cosine c q.
Proof.
  intro Hlen. split; [|apply cosine_comm].
  rewrite !similarity_of_embeddings_rect;
    try discriminate; try (repeat constructor; congruence).
  cbn [map]. now rewrite cosine_comm.
Qed.

Lemma similarity_symmetric_witness :
  similarity_of_embeddings [1; 2]%float [[3; 4]%float]
  = similarity_of_embeddings [3; 4]%float [[1; 2]%float].
Proof.
  exact (proj1 (@similarity_symmetric [1; 2]%float [3; 4]%float eq_refl)).
Defined.

(** X5.  Read over the real numbers, the similarity of
    [calculate_similarity] lies between -1 and 1 whenever both norms are
    non-zero (Cauchy-Schwarz); nothing in the formula keeps it above 0. *)
Theorem exact_cosine_in_range (q c : list R) :
  l2norm c <> 0%R -> l2norm q <> 0%R ->
  (-1 <= cosine q c <= 1)%R.
Proof.
  intros Hc Hq. pose proof (l2norm_nonneg c). pose proof (l2norm_nonneg q).
  assert (Hpos : (0 < l2norm c * l2norm q)%R) by nra.
  pose proof (inner_le_norms c q) as Hb.
  assert (Hs : (- (l2norm c * l2norm q) <= inner c q <= l2norm c * l2norm q)%R).
  { unfold Rabs in Hb. destruct (Rcase_abs (inner c q)); lra. }
  pose proof (Rinv_0_lt_compat _ Hpos) as Hinv.
  pose proof (Rinv_r _ (Rgt_not_eq _ _ Hpos)) as Hone.
  unfold cosine. cbn [a_div a_mul real_arith]. unfold Rdiv.
  set (N := (l2norm c * l2norm q)%R) in *. set (S := inner c q) in *.
  split.
  - assert (0 <= (S + N) * / N)%R by (apply Rmult_le_pos; lra). nra.
  - assert (0 <= (N - S) * / N)%R by (apply Rmult_le_pos; lra). nra.
Qed.

Lemma exact_cosine_in_range_witness :
  (-1 <= cosine [1%R; 0%R] [0%R; 1%R] <= 1)%R.
Proof.
  assert (H1 : l2norm [1%R; 0%R] <> 0%R).
  { unfold l2norm, sum. simpl.
    replace (0 + 1 * 1 + 0 * 0)%R with 1%R by ring. rewrite sqrt_1. lra. }
  assert (H2 : l2norm [0%R; 1%R] <> 0%R).
  { unfold l2norm, sum. simpl.
    replace (0 + 0 * 0 + 1 * 1)%R with 1%R by ring. rewrite sqrt_1. lra. }
  exact (@exact_cosine_in_range [1%R; 0%R] [0%R; 1%R] H2 H1).
Defined.

(** X6.  When the batch has no "question" column or no "answer" column,
    [_score_batch] raises [KeyError] before anything is asked of the
    services; on a table with at least one row (and a positive batch size)
    [score] raises the same [KeyError], in the state it started from. *)
Theorem score_missing_column
    (World : Type) (svc : Services World) (self : AnswerRelevancy)
    (ds : Dataset) (st : state World) :
  lookup "question" ds = None \/ lookup "answer" ds = None ->
  _score_batch svc self ds st = (Raise KeyError, st)
  /\ (0 < batch_size self -> 0 < num_rows ds ->
      score svc self ds st = (Raise KeyError, st)).
Proof.
  intro H. split; [now apply _score_batch_missing|].
  intros Hb Hn.
  destruct (@first_batch self (num_rows ds) Hb Hn) as (r & rest & E & Hr).
  rewrite score_unfold, E. unfold tqdm. cbn [for_in].
  unfold bind at 1. unfold bind at 1. unfold score_selected, bind at 1, lift.
  rewrite select_in_range by assumption.
  rewrite _score_batch_missing; [reflexivity|].
  rewrite !lookup_map_columns. destruct H as [-> | ->]; auto.
Qed.

Lemma score_missing_column_witness :
  score Stub.axes answer_relevancy Faults.no_answer_column Stub.init
  = (Raise KeyError, Stub.init).
Proof.
  refine (proj2 (@score_missing_column _ Stub.axes answer_relevancy
                   Faults.no_answer_column Stub.init _) _ _).
  - right. reflexivity.
  - simpl. lia.
  - simpl. lia.
Defined.

(** X7.  When the generation client raises, [_score_batch] raises the same
    exception right after that one request: nothing is asked of the
    embedding client. *)
Theorem score_batch_generation_failure
    (World : Type) (svc : Services World) (self : AnswerRelevancy)
    (ds : Dataset) (st : state World) (questions answers : list string)
    (e : exn) (w : World) :
  lookup "question" ds = Some (TextColumn questions) ->
  lookup "answer" ds = Some (TextColumn answers) ->
  llm_generate svc
    (map (fun ans => from_messages [QUESTION_GEN_format ans]) answers)
    (strictness self) (world st) = (Raise e, w) ->
  _score_batch svc self ds st
  = (Raise e,
     {| world := w;
        trace := trace st ++
          [Generate (map (fun ans => from_messages [QUESTION_GEN_format ans]) answers)
                    (strictness self)] |}).
Proof.
  intros Lq La Eg. unfold _score_batch, getitem. rewrite Lq, La.
  unfold bind at 1, lift at 1. unfold bind at 1, lift at 1.
  unfold bind at 1, lift at 1. simpl text_cells.
  unfold bind at 1, lift at 1. simpl text_cells.
  unfold bind at 1, generate, call_service. now rewrite Eg.
Qed.

Lemma score_batch_generation_failure_witness :
  exists prompts,
    _score_batch Faults.no_generation answer_relevancy Stub.three_rows Stub.init
    = (Raise ServiceError, {| world := 1; trace := [Generate prompts 3] |}).
Proof.
  eexists.
  exact (@score_batch_generation_failure _ Faults.no_generation answer_relevancy
           Stub.three_rows Stub.init ["x"; "y"; "x"]%string ["a"; "b"; "c"]%string
           ServiceError 1 eq_refl eq_refl eq_refl).
Defined.

(** X8.  When [_score_batch] returns, it has made one generation request and
    then, record by record in order, one embedding call for the question
    followed by one for that record's candidates, and nothing else; it
    returns as many scores as the shorter of the question column and the
    generation client's answer ([zip] stops at the shorter). *)
Theorem score_batch_call_sequence
    (World : Type) (svc : Services World) (self : AnswerRelevancy)
    (ds : Dataset) (st st' : state World) (scores : list float) :
  _score_batch svc self ds st = (Ok scores, st') ->
  exists questions answers results w,
    lookup "question" ds = Some (TextColumn questions)
    /\ lookup "answer" ds = Some (TextColumn answers)
    /\ llm_generate svc
         (map (fun ans => from_messages [QUESTION_GEN_format ans]) answers)
         (strictness self) (world st) = (Ok results, w)
    /\ length scores = Nat.min (length questions) (length results)
    /\ trace st'
       = trace st
         ++ Generate (map (fun ans => from_messages [QUESTION_GEN_format ans]) answers)
                     (strictness self)
         :: flat_map embedding_calls (combine questions results).
Proof.
  intro E. apply _score_batch_ok in E
    as (questions & answers & results & w & Lq & La & Eg & R).
  exists questions, answers, results, w. repeat (split; [assumption|]).
  split.
  - rewrite (runs_length R), length_combine. reflexivity.
  - rewrite (runs_record_trace R). cbn [trace]. now rewrite <- app_assoc.
Qed.

Lemma score_batch_call_sequence_witness :
  exists prompts,
    trace (snd (_score_batch Stub.axes answer_relevancy Stub.one_row Stub.init))
    = [Generate prompts 3;
       EmbedQuery "x"; EmbedDocuments ["x"; "y"; "y"]%string].
Proof.
  destruct (@score_batch_call_sequence _ Stub.axes answer_relevancy Stub.one_row
              Stub.init
              (snd (_score_batch Stub.axes answer_relevancy Stub.one_row Stub.init))
              [1]%float)
    as (questions & answers & results & w & Lq & La & Eg & _ & Htrace).
  - vm_compute. reflexivity.
  - injection Lq as <-. injection La as <-. injection Eg as <- _.
    eexists. exact Htrace.
Defined.

(** X9.  When [score] returns, it has sent the generation client exactly
    one request per batch, in the order of the batches, each with the
    prompts of that batch's answers and [strictness] as the count; with a
    positive batch size the prompts are as many as the table has rows. *)
Theorem score_requests_per_batch
    (World : Type) (svc : Services World) (self : AnswerRelevancy)
    (ds out : Dataset) (st st' : state World) (answers : list string) :
  score svc self ds st = (Ok out, st') ->
  lookup "answer" ds = Some (TextColumn answers) ->
  let requests :=
    map (batch_request self answers) (get_batches self (num_rows ds)) in
  generation_requests (trace st') = generation_requests (trace st) ++ requests
  /\ (0 < batch_size self ->
      length (concat (map fst requests)) = num_rows ds).
Proof.
  intros E La requests. split.
  - rewrite score_unfold in E.
    match type of E with
    | context [for_in ?xs ?body ?acc st] =>
        destruct (for_in xs body acc st) as [[scores|e] s1] eqn:Eloop;
          [|discriminate]
    end.
    injection E as _ <-.
    apply (for_in_collect (score_selected svc self ds) (fun l => l)) in Eloop;
      [|reflexivity].
    destruct Eloop as (ys & R & _).
    exact (runs_selected_requests La R).
  - intro Hb. unfold requests. rewrite concat_batch_lengths.
    rewrite batches_cover by assumption. apply length_seq.
Qed.

Lemma score_requests_per_batch_witness :
  length (generation_requests
            (trace (snd (score Stub.axes Stub.small_batches Stub.three_rows Stub.init))))
  = 2.
Proof.
  rewrite (proj1 (@score_requests_per_batch _ Stub.axes Stub.small_batches
                    Stub.three_rows
                    (Stub.three_rows ++ [("answer_relevancy"%string, FloatColumn [1; 1; 1]%float)])
                    Stub.init
                    (snd (score Stub.axes Stub.small_batches Stub.three_rows Stub.init))
                    ["a"; "b"; "c"]%string
                    ltac:(vm_compute; reflexivity) eq_refl)).
  reflexivity.
Defined.



(** X11.  When the table already has a column called [name], [score] never
    returns a table; and when everything else is in order the failure is
    the [ValueError] of [add_column], raised only after every batch has
    been sent to the services. *)
Theorem score_name_clash
    (World : Type) (svc : Services World) (self : AnswerRelevancy)
    (ds : Dataset) (st : state World) :
  In (name self) (column_names ds) ->
  is_ok (fst (score svc self ds st)) = false
  /\ (forall d questions answers,
        generation_contract svc -> embedding_contract svc d ->
        0 < strictness self -> 0 < batch_size self ->
        lookup "question" ds = Some (TextColumn questions) ->
        lookup "answer" ds = Some (TextColumn answers) ->
        fst (score svc self ds st) = Raise ValueError
        /\ generation_requests (trace (snd (score svc self ds st)))
           = generation_requests (trace st)
             ++ map (batch_request self answers) (get_batches self (num_rows ds))).
Proof.
  intro Hin. split.
  - destruct (score svc self ds st) as [[out|e] st'] eqn:E; [|reflexivity].
    apply score_ok in E as (scores & _ & _ & Hfresh). contradiction.
  - intros d questions answers Hg He Hs Hb Lq La.
    destruct (@score_loop_returns World svc self d Hg He Hs Hb ds questions
                answers st Lq La) as (ys & st' & R & _).
    assert (Eloop :
      for_in (tqdm (get_batches self (num_rows ds)))
             (fun batch scores =>
                score <- score_selected svc self ds batch ;; ret (scores ++ score))
             [] st = (Ok (concat ys), st')).
    { apply (for_in_collect (score_selected svc self ds) (fun l => l));
        [reflexivity|].
      exists ys. split; [exact R|]. simpl. now rewrite map_id. }
    rewrite score_unfold, Eloop. cbn [fst snd].
    split; [now apply add_column_clash|].
    exact (runs_selected_requests La R).
Qed.

Lemma score_name_clash_witness :
  fst (score Stub.axes answer_relevancy Faults.scored_before Stub.init)
  = Raise ValueError
  /\ length (generation_requests
               (trace (snd (score Stub.axes answer_relevancy Faults.scored_before
                              Stub.init)))) = 1.
Proof.
  destruct (proj2 (@score_name_clash _ Stub.axes answer_relevancy
                     Faults.scored_before Stub.init
                     ltac:(simpl; auto))
              2 ["x"]%string ["a"]%string axes_generation axes_embedding
              ltac:(simpl; lia) ltac:(simpl; lia) eq_refl eq_refl) as [Hr Ht].
  split; [exact Hr|]. rewrite Ht. reflexivity.
Defined.

(** X12.  [score] stops at the first batch that raises: it raises that
    exception in the state the failing batch left, the scores of the
    batches before are dropped and the batches after are not touched. *)
Theorem score_stops_at_first_failure
    (World : Type) (svc : Services World) (self : AnswerRelevancy)
    (ds : Dataset) (st s1 s2 : state World)
    (done : list range) (failing : range) (rest : list range)
    (ys : list (list float)) (e : exn) :
  get_batches self (num_rows ds) = done ++ failing :: rest ->
  runs (score_selected svc self ds) done ys st s1 ->
  score_selected svc self ds failing s1 = (Raise e, s2) ->
  score svc self ds st = (Raise e, s2).
Proof.
  intros Eb R E. rewrite score_unfold, Eb. unfold tqdm.
  rewrite (@for_in_raise _ _ _ _ (score_selected svc self ds) (fun l => l)
             (fun batch scores =>
                score <- score_selected svc self ds batch ;; ret (scores ++ score))
             (fun _ _ _ => eq_refl) done failing rest ys [] st s1 s2 e R E).
  reflexivity.
Qed.

Lemma score_stops_at_first_failure_witness :
  exists s2,
    score Faults.flaky Stub.small_batches Stub.three_rows Stub.init
    = (Raise ServiceError, s2)
    /\ length (generation_requests (trace s2)) = 2.
Proof.
  eexists. split.
  - refine (@score_stops_at_first_failure _ Faults.flaky Stub.small_batches
              Stub.three_rows Stub.init
              (snd (score_selected Faults.flaky Stub.small_batches Stub.three_rows
                      {| start := 0; stop := 2 |} Stub.init))
              _
              [{| start := 0; stop := 2 |}] {| start := 2; stop := 3 |} []
              [[1; 1]%float] ServiceError eq_refl _ _).
    + econstructor; [vm_compute; reflexivity|constructor].
    + vm_compute. reflexivity.
  - reflexivity.
Defined.
